(** * Resumable crawl engine of [scripts/tr_parser_html.py]

    A shallow embedding of the price normaliser, the listing parser, the
    page fetcher, the progress checkpoint and the per-category orchestrator,
    with the properties of each that the specification states. *)

From Stdlib Require Import List ZArith NArith Bool Lia Ascii String QArith Qminmax
  DecimalString DecimalPos DecimalZ Permutation Sorted.
Import ListNotations.

Set Implicit Arguments.

(** ** Python text

    A Python [str] is a sequence of Unicode code points.  Literals that are
    pure ASCII are written with [lit]; other characters are named. *)

Definition char := N.
Definition str := list char.

Definition lit (s : string) : str := map N_of_ascii (list_ascii_of_string s).

Definition NBSP : char := 160%N.              (* U+00A0 *)
Definition RUBLE : char := 8381%N.            (* U+20BD *)
Definition EN_DASH : char := 8211%N.          (* U+2013 *)
Definition EM_DASH : char := 8212%N.          (* U+2014 *)
Definition BULLET : char := 8226%N.           (* U+2022 *)

Open Scope N_scope.

(** First code point of every run of ten decimal digits (category Nd),
    which is what [\d] matches on [str] patterns and what [int] and [float]
    accept.  Within a run the value of a digit is its offset. *)
Definition nd_starts : list N :=
  [48; 1632; 1776; 1984; 2406; 2534; 2662; 2790; 2918; 3046; 3174; 3302;
   3430; 3558; 3664; 3792; 3872; 4160; 4240; 6112; 6160; 6470; 6608; 6784;
   6800; 6992; 7088; 7232; 7248; 42528; 43216; 43264; 43472; 43504; 43600;
   44016; 65296; 66720; 68912; 69734; 69872; 69942; 70096; 70384; 70736;
   70864; 71248; 71360; 71472; 71904; 72016; 72784; 73040; 73120; 92768;
   92864; 93008; 120782; 120792; 120802; 120812; 120822; 123200; 123632;
   125264; 130032].

Definition digit_value (c : char) : option N :=
  match find (fun a => (a <=? c) && (c <? a + 10)) nd_starts with
  | Some a => Some (c - a)
  | None => None
  end.

Definition isdigit (c : char) : bool :=
  match digit_value c with Some _ => true | None => false end.

(** [str.isspace] on one character, also the class [\s]. *)
Definition isspace (c : char) : bool :=
  existsb (N.eqb c)
    [9; 10; 11; 12; 13; 28; 29; 30; 31; 32; 133; 160; 5760; 8192; 8193;
     8194; 8195; 8196; 8197; 8198; 8199; 8200; 8201; 8202; 8232; 8233;
     8239; 8287; 12288].

Definition str_eqb (a b : str) : bool :=
  if list_eq_dec N.eq_dec a b then true else false.

(** [s.replace(old, new)] for a one-character [old]. *)
Definition replace1 (old : char) (new : str) (s : str) : str :=
  flat_map (fun c => if c =? old then new else [c]) s.

(** Longest prefix whose characters satisfy [p], and the rest. *)
Fixpoint span (p : char -> bool) (s : str) : str * str :=
  match s with
  | c :: r => if p c then let '(a, b) := span p r in (c :: a, b) else ([], s)
  | [] => ([], [])
  end.

(** ** [parse_price] *)

(** A price is kept as the number of hundredths: [12345.67] is [1234567].
    The source returns the [float] nearest to that decimal. *)
Definition hundredths := N.

(** The character class [[\d\s ]] of [PRICE_RE]. *)
Definition price_run_char (c : char) : bool :=
  isdigit c || isspace c || (c =? NBSP).

(** The optional tail [(?:[.,](\d{2}))?] at the head of [rest]: group 2. *)
Definition price_fraction (rest : str) : option str :=
  match rest with
  | sep :: d1 :: d2 :: _ =>
      if ((sep =? 46) || (sep =? 44)) && isdigit d1 && isdigit d2
      then Some [d1; d2] else None
  | _ => None
  end.

(** [PRICE_RE] anchored at the head of [s]: groups 1 and 2.  The run is
    greedy, and the optional tail never makes the engine give characters
    back, since it matches the empty text when the fraction is absent. *)
Definition PRICE_RE_match (s : str) : option (str * option str) :=
  match s with
  | c :: r =>
      if isdigit c
      then let '(run, rest) := span price_run_char r in
           Some (c :: run, price_fraction rest)
      else None
  | [] => None
  end.

(** [PRICE_RE.search(s)]: the leftmost match. *)
Fixpoint PRICE_RE_search (s : str) : option (str * option str) :=
  match PRICE_RE_match s with
  | Some m => Some m
  | None => match s with [] => None | _ :: r => PRICE_RE_search r end
  end.

(** One more digit read, or failure once a character is not a digit. *)
Definition digit_step (acc : option N) (c : char) : option N :=
  match acc, digit_value c with
  | Some a, Some d => Some (10 * a + d)
  | _, _ => None
  end.

(** Value of a text made of decimal digits only. *)
Definition digits_value (s : str) : option N :=
  fold_left digit_step s (Some 0).

(** [float(f"{whole}.{cents}")] on the texts [parse_price] builds: [whole]
    starts with a digit and holds digits and white space only, [cents] is
    two digits.  [float] accepts the text when [whole] is all digits and
    raises [ValueError] (here [None]) when white space is left inside. *)
Definition float_of_parts (whole cents : str) : option hundredths :=
  match whole, digits_value whole, digits_value cents with
  | _ :: _, Some w, Some c => Some (100 * w + c)
  | _, _, _ => None
  end.

Definition parse_price (text : str) : option hundredths :=
  match text with
  | [] => None
  | _ =>
      let t := replace1 NBSP (lit " ") text in
      match PRICE_RE_search t with
      | None => None
      | Some (g1, g2) =>
          let whole := replace1 32 [] g1 in
          let cents := match g2 with Some c => c | None => lit "00" end in
          float_of_parts whole cents
      end
  end.

(** ** More of [str] *)

Fixpoint dropwhile (p : char -> bool) (s : str) : str :=
  match s with
  | c :: r => if p c then dropwhile p r else s
  | [] => []
  end.

(** [s.strip(chars)], with the characters to remove given as a predicate. *)
Definition strip_by (p : char -> bool) (s : str) : str :=
  rev (dropwhile p (rev (dropwhile p s))).

(** [s.strip()] *)
Definition strip (s : str) : str := strip_by isspace s.

(** [s.startswith(pre)], and the rest of [s] when it holds. *)
Fixpoint strip_prefix (pre s : str) : option str :=
  match pre, s with
  | [], _ => Some s
  | a :: pre', b :: s' => if a =? b then strip_prefix pre' s' else None
  | _ :: _, [] => None
  end.

Definition startswith (pre s : str) : bool :=
  match strip_prefix pre s with Some _ => true | None => false end.

(** [needle in s] *)
Fixpoint contains (needle s : str) : bool :=
  startswith needle s ||
  match s with
  | [] => false
  | _ :: r => contains needle r
  end.

(** [s.split(sep, 1)] when [sep] occurs in [s]: the text before the first
    occurrence and the text after it. *)
Fixpoint split_once (sep s : str) : option (str * str) :=
  match strip_prefix sep s with
  | Some rest => Some ([], rest)
  | None =>
      match s with
      | [] => None
      | c :: r =>
          match split_once sep r with
          | Some (a, b) => Some (c :: a, b)
          | None => None
          end
      end
  end.

(** [s.lower()].  Only the ASCII capitals are spelled out: the callers
    look for the letters of a lower-case ASCII word, which no other
    character lowers to in sequence. *)
Definition lower (s : str) : str :=
  map (fun c => if (65 <=? c) && (c <=? 90) then c + 32 else c) s.

(** [" ".join(parts)] *)
Fixpoint join_space (parts : list str) : str :=
  match parts with
  | [] => []
  | [p] => p
  | p :: rest => p ++ 32 :: join_space rest
  end.

(** [re.split(r"\s{2,}|[|\n\r]", s)]: a run of two or more white-space
    characters, or else one of [|], line feed, carriage return, separates.
    [skip] is set while a white-space run is being consumed, [acc] holds
    the current piece in reverse. *)
Fixpoint re_split_pieces (skip : bool) (acc : str) (s : str) : list str :=
  match s with
  | [] => [rev acc]
  | c :: r =>
      if skip && isspace c then re_split_pieces true acc r
      else if isspace c && match r with c2 :: _ => isspace c2 | [] => false end
      then rev acc :: re_split_pieces true [] r
      else if (c =? 124) || (c =? 10) || (c =? 13)
      then rev acc :: re_split_pieces false [] r
      else re_split_pieces false (c :: acc) r
  end.

(** The separators [[:\-–—]] of an attribute line. *)
Definition is_charac_sep (c : char) : bool :=
  (c =? 58) || (c =? 45) || (c =? EN_DASH) || (c =? EM_DASH).

(** [re.split(r"\s*[:\-–—]\s*", s, maxsplit=1)] followed by [strip] of
    both parts, when a separator occurs: the white space around the first
    separator belongs to the match and what is left of it is stripped. *)
Definition re_split_charac (s : str) : option (str * str) :=
  let '(before, rest) := span (fun c => negb (is_charac_sep c)) s in
  match rest with
  | _ :: after => Some (strip before, strip after)
  | [] => None
  end.

(** The leading markers [[-–—•]] of an attribute name. *)
Definition is_marker (c : char) : bool :=
  (c =? 45) || (c =? EN_DASH) || (c =? EM_DASH) || (c =? BULLET).

(** [re.sub(r"^[\s ]*[-–—•]+[\s ]*", "", s)] *)
Definition re_sub_markers (s : str) : str :=
  let s1 := dropwhile (fun c => isspace c || (c =? NBSP)) s in
  match s1 with
  | c :: _ =>
      if is_marker c
      then dropwhile (fun c => isspace c || (c =? NBSP)) (dropwhile is_marker s1)
      else s
  | [] => s
  end.

(** Truth value of a text, and of a value that may be [None]. *)
Definition nonempty (s : str) : bool :=
  match s with [] => false | _ :: _ => true end.

Definition truthy (o : option str) : bool :=
  match o with Some s => nonempty s | None => false end.

(** [a or b] and [a or ""] on values that are a text or [None]. *)
Definition por (a b : option str) : option str := if truthy a then a else b.

Definition or_empty (a : option str) : str :=
  match a with Some s => s | None => [] end.

(** ** Listing items and the events of [html.parser] *)

(** Attributes of a start tag as [HTMLParser] passes them: lower-case names
    paired with the value, [None] for an attribute without one. *)
Definition attrs := list (str * option str).

Inductive event : Type :=
| StartTag (tag : str) (a : attrs)
| EndTag (tag : str)
| Data (data : str).

(** [dict(attrs).get(key)]: the last pair for [key] wins. *)
Definition attr_get (a : attrs) (key : str) : option str :=
  match find (fun kv => str_eqb (fst kv) key) (rev a) with
  | Some (_, v) => v
  | None => None
  end.

(** What the standard library does for the parser: [HTMLParser.feed] and
    [HTMLParser.close] turn the page text into handler calls (a tag closed
    in place gives a start and an end event), [urljoin] and [urlparse]
    work on addresses, [int] reads a number.  [None] stands for a raised
    exception. *)
Record Library : Type := {
  feed_events : str -> list event;
  close_events : str -> list event;
  urljoin : str -> str -> option str;
  urlparse_path : str -> option str;
  int_of_str : str -> option Z
}.

Module Item.
(** The dictionary built for one card.  The keys [product_img],
    [product_characs] and [slug] may be absent. *)
Record t : Type := {
  product_id : str;
  name : str;
  price : option hundredths;
  product_name : str;
  product_img : option str;
  product_characs : option (list (str * str));
  slug : option str
}.

Definition set_name (v : str) (i : t) : t :=
  {| product_id := product_id i; name := v; price := price i;
     product_name := product_name i; product_img := product_img i;
     product_characs := product_characs i; slug := slug i |}.

Definition set_price (v : option N) (i : t) : t :=
  {| product_id := product_id i; name := name i; price := v;
     product_name := product_name i; product_img := product_img i;
     product_characs := product_characs i; slug := slug i |}.

Definition set_product_name (v : str) (i : t) : t :=
  {| product_id := product_id i; name := name i; price := price i;
     product_name := v; product_img := product_img i;
     product_characs := product_characs i; slug := slug i |}.

Definition set_product_img (v : option str) (i : t) : t :=
  {| product_id := product_id i; name := name i; price := price i;
     product_name := product_name i; product_img := v;
     product_characs := product_characs i; slug := slug i |}.

Definition set_product_characs (v : option (list (str * str))) (i : t) : t :=
  {| product_id := product_id i; name := name i; price := price i;
     product_name := product_name i; product_img := product_img i;
     product_characs := v; slug := slug i |}.

Definition set_slug (v : option str) (i : t) : t :=
  {| product_id := product_id i; name := name i; price := price i;
     product_name := product_name i; product_img := product_img i;
     product_characs := product_characs i; slug := v |}.
End Item.

Definition BASE_URL : str := lit "https://truboproduct.ru".

(** ** [ListingParser] *)

Record ListingParser : Type := {
  items : list Item.t;
  in_item : bool;
  depth : Z;
  cur : option Item.t;
  text_buf : list str;
  in_price_block : bool;
  price_text_buf : list str;
  in_characs_list : bool;
  characs_depth : Z;
  in_char_li : bool;
  char_li_buf : list str;
  in_name_link : bool;
  name_link_buf : list str
}.

(** [ListingParser()] *)
Definition new_parser : ListingParser :=
  {| items := []; in_item := false; depth := 0%Z; cur := None;
     text_buf := []; in_price_block := false; price_text_buf := [];
     in_characs_list := false; characs_depth := 0%Z; in_char_li := false;
     char_li_buf := []; in_name_link := false; name_link_buf := [] |}.

(** The fields one card owns: what a new card and [_finalize_item] reset. *)
Definition with_card (p : ListingParser) (its : list Item.t) (ini : bool)
    (d : Z) (c : option Item.t) (tb : list str) (ipb : bool)
    (ptb : list str) : ListingParser :=
  {| items := its; in_item := ini; depth := d; cur := c; text_buf := tb;
     in_price_block := ipb; price_text_buf := ptb;
     in_characs_list := in_characs_list p; characs_depth := characs_depth p;
     in_char_li := in_char_li p; char_li_buf := char_li_buf p;
     in_name_link := in_name_link p; name_link_buf := name_link_buf p |}.

(** The fields that follow the attribute list and the name link. *)
Definition with_lists (p : ListingParser) (icl : bool) (cd : Z) (icli : bool)
    (clb : list str) (inl : bool) (nlb : list str) : ListingParser :=
  {| items := items p; in_item := in_item p; depth := depth p; cur := cur p;
     text_buf := text_buf p; in_price_block := in_price_block p;
     price_text_buf := price_text_buf p;
     in_characs_list := icl; characs_depth := cd; in_char_li := icli;
     char_li_buf := clb; in_name_link := inl; name_link_buf := nlb |}.

Definition set_depth (d : Z) (p : ListingParser) : ListingParser :=
  with_card p (items p) (in_item p) d (cur p) (text_buf p)
            (in_price_block p) (price_text_buf p).

Definition set_cur (c : option Item.t) (p : ListingParser) : ListingParser :=
  with_card p (items p) (in_item p) (depth p) c (text_buf p)
            (in_price_block p) (price_text_buf p).

Definition set_in_price_block (b : bool) (p : ListingParser) : ListingParser :=
  with_card p (items p) (in_item p) (depth p) (cur p) (text_buf p)
            b (price_text_buf p).

(** Update of the current card, when there is one. *)
Definition upd_cur (f : Item.t -> Item.t) (p : ListingParser) : ListingParser :=
  match cur p with
  | Some c => set_cur (Some (f c)) p
  | None => p
  end.

Definition is_some {A} (o : option A) : bool :=
  match o with Some _ => true | None => false end.

(** The first stripped fragment of the card's text that is not empty, holds
    no match of [PRICE_RE] and has at least ten characters. *)
Definition pick_name (full_text : str) : option str :=
  find (fun p => nonempty p && negb (is_some (PRICE_RE_search p))
                 && (10 <=? N.of_nat (List.length p)))
       (map strip (re_split_pieces false [] full_text)).

(** [_finalize_item] *)
Definition finalize_item (p : ListingParser) : ListingParser :=
  match cur p with
  | None => p
  | Some c =>
      let c1 :=
        if nonempty (Item.name c) then c
        else match pick_name (strip (join_space (text_buf p))) with
             | Some n => Item.set_name n c
             | None => c
             end in
      let c2 :=
        if nonempty (Item.product_name c1) then c1
        else Item.set_product_name (Item.name c1) c1 in
      let price_text := strip (join_space (price_text_buf p)) in
      let price_text :=
        if nonempty price_text then price_text
        else strip (join_space (text_buf p)) in
      let c3 := Item.set_price (parse_price price_text) c2 in
      with_card p (items p ++ [c3]) false (depth p) None [] false []
  end.

(** One attribute line, split into name and value. *)
Definition parse_charac (text : str) : str * str :=
  let '(ch, val) :=
    match split_once (lit ": ") text with
    | Some (a, b) => (strip a, strip b)
    | None =>
        match re_split_charac text with
        | Some (a, b) => (a, b)
        | None => ([], text)
        end
    end in
  let cleaned := strip (re_sub_markers ch) in
  (if nonempty cleaned then cleaned else ch, val).

Definition add_charac (kv : str * str) (c : Item.t) : Item.t :=
  Item.set_product_characs
    (Some (match Item.product_characs c with
           | Some l => l ++ [kv]
           | None => [kv]
           end)) c.

Section Parser.
Variable L : Library.

(** The branch of [handle_starttag] that opens a card. *)
Definition start_item (p : ListingParser) (a : attrs) (data_pid : str)
  : ListingParser :=
  let p1 := if in_item p && is_some (cur p) then finalize_item p else p in
  with_card p1 (items p1) true 1%Z
    (Some {| Item.product_id := strip data_pid;
             Item.name := [];
             Item.price := None;
             Item.product_name :=
               strip (or_empty (attr_get a (lit "data-product-name")));
             Item.product_img := None;
             Item.product_characs := None;
             Item.slug := None |})
    [] false [].

(** First picture of the card. *)
Definition on_img (a : attrs) (c : Item.t) : Item.t :=
  if truthy (Item.product_img c) then c
  else
    let img_src :=
      strip (or_empty (por (attr_get a (lit "data-src"))
                      (por (attr_get a (lit "src"))
                           (attr_get a (lit "data-original"))))) in
    if nonempty img_src
    then Item.set_product_img
           (Some (match urljoin L BASE_URL img_src with
                  | Some u => u
                  | None => img_src
                  end)) c
    else c.

(** Slug taken from the address of the card's link. *)
Definition on_link_href (a : attrs) (c : Item.t) : Item.t :=
  let href := strip (or_empty (attr_get a (lit "href"))) in
  if nonempty href && negb (truthy (Item.slug c))
  then
    let path :=
      if contains (lit "://") href
      then match urlparse_path L href with Some x => x | None => href end
      else href in
    let s := strip_by (N.eqb 47) path in
    let s := match strip_prefix (lit "product/") s with
             | Some r => r
             | None => s
             end in
    let s := strip_by (N.eqb 47) s in
    if nonempty s then Item.set_slug (Some s) c else c
  else c.

(** The part of [handle_starttag] run for a tag inside a card. *)
Definition inner_starttag (p : ListingParser) (tag : str) (a : attrs)
  : ListingParser :=
  let p := set_depth (depth p + 1) p in
  let p :=
    if str_eqb tag (lit "meta")
       && match attr_get a (lit "itemprop") with
          | Some v => str_eqb v (lit "name")
          | None => false
          end
       && truthy (attr_get a (lit "content"))
    then upd_cur (Item.set_name (strip (or_empty (attr_get a (lit "content"))))) p
    else p in
  let cls := or_empty (attr_get a (lit "class")) in
  let p := if contains (lit "price") (lower cls)
           then set_in_price_block true p else p in
  let p := if str_eqb tag (lit "img") then upd_cur (on_img a) p else p in
  if str_eqb tag (lit "ul") && contains (lit "listing-cards__list") cls
  then
    let p := with_lists p true 1%Z (in_char_li p) (char_li_buf p)
                        (in_name_link p) (name_link_buf p) in
    upd_cur (fun c => match Item.product_characs c with
                      | Some _ => c
                      | None => Item.set_product_characs (Some []) c
                      end) p
  else
    let p :=
      if in_characs_list p
      then
        if str_eqb tag (lit "li")
        then with_lists p true (characs_depth p + 1) true []
                        (in_name_link p) (name_link_buf p)
        else with_lists p true (characs_depth p + 1) (in_char_li p)
                        (char_li_buf p) (in_name_link p) (name_link_buf p)
      else p in
    if str_eqb tag (lit "a") && in_item p
       && contains (lit "listing-cards__link") cls
    then
      let p := with_lists p (in_characs_list p) (characs_depth p)
                          (in_char_li p) (char_li_buf p) true [] in
      upd_cur (on_link_href a) p
    else p.

Definition handle_starttag (p : ListingParser) (tag : str) (a : attrs)
  : ListingParser :=
  let data_pid :=
    por (attr_get a (lit "data-product-id"))
        (por (attr_get a (lit "data-id"))
             (attr_get a (lit "data-productid"))) in
  if str_eqb tag (lit "li")
     && contains (lit "listing-cards__item")
                 (or_empty (attr_get a (lit "class")))
     && truthy data_pid
  then start_item p a (or_empty data_pid)
  else if in_item p then inner_starttag p tag a else p.

(** [handle_endtag].  The attribute [_last_class] it reads is never
    assigned, so the test on it is always false and a price block, once
    entered, lasts until the card is finalized. *)
Definition handle_endtag (p : ListingParser) (tag : str) : ListingParser :=
  let p :=
    if in_char_li p && str_eqb tag (lit "li")
    then
      let text := strip (join_space (char_li_buf p)) in
      let p := if nonempty text
               then upd_cur (add_charac (parse_charac text)) p else p in
      with_lists p (in_characs_list p) (characs_depth p) false []
                 (in_name_link p) (name_link_buf p)
    else p in
  let p :=
    if in_characs_list p
    then
      let d := (characs_depth p - 1)%Z in
      with_lists p (negb (d <=? 0)%Z) d (in_char_li p) (char_li_buf p)
                 (in_name_link p) (name_link_buf p)
    else p in
  let p :=
    if in_name_link p && str_eqb tag (lit "a")
    then
      let text := strip (join_space (name_link_buf p)) in
      let p := if nonempty text
               then upd_cur (Item.set_product_name text) p else p in
      with_lists p (in_characs_list p) (characs_depth p) (in_char_li p)
                 (char_li_buf p) false []
    else p in
  if in_item p
  then
    let p := set_depth (depth p - 1) p in
    if (depth p =? 0)%Z then finalize_item p else p
  else p.

Definition handle_data (p : ListingParser) (data : str) : ListingParser :=
  if in_item p && nonempty data
  then
    let s := strip data in
    if nonempty s
    then
      let p := with_card p (items p) (in_item p) (depth p) (cur p)
                 (text_buf p ++ [s]) (in_price_block p)
                 (if in_price_block p then price_text_buf p ++ [s]
                  else price_text_buf p) in
      with_lists p (in_characs_list p) (characs_depth p) (in_char_li p)
                 (if in_char_li p then char_li_buf p ++ [s]
                  else char_li_buf p)
                 (in_name_link p)
                 (if in_name_link p then name_link_buf p ++ [s]
                  else name_link_buf p)
    else p
  else p.

Definition handle (p : ListingParser) (e : event) : ListingParser :=
  match e with
  | StartTag tag a => handle_starttag p tag a
  | EndTag tag => handle_endtag p tag
  | Data d => handle_data p d
  end.

(** [parser.feed(html)] *)
Definition feed (p : ListingParser) (html : str) : ListingParser :=
  fold_left handle (feed_events L html) p.

(** [parser.close()]: the card still open is finalized, then the base
    class flushes what it had buffered. *)
Definition close (p : ListingParser) (html : str) : ListingParser :=
  let p := if in_item p && is_some (cur p) then finalize_item p else p in
  fold_left handle (close_events L html) p.

(** The cards the parser holds after [feed] and [close]. *)
Definition parser_items (html : str) : list Item.t :=
  items (close (feed new_parser html) html).

Definition retained (it : Item.t) : bool :=
  nonempty (Item.name it) && is_some (Item.price it).

Definition extract_products_from_html (html : str) : list Item.t :=
  fold_left (fun out it => if retained it then out ++ [it] else out)
            (parser_items html) [].

(** [count_products_on_page] *)
Definition count_products_on_page (html : str) : nat :=
  match html with
  | [] => 0%nat
  | _ => List.length (parser_items html)
  end.
End Parser.

(** The flag [_in_item] is set exactly when there is a current card. *)
Definition card_open (p : ListingParser) : Prop :=
  in_item p = is_some (cur p).

(** ** [get_total_pages] *)

(** [page__\s*(\d+)] anchored at the head of [s]: group 1. *)
Definition page_marker (s : str) : option str :=
  match strip_prefix (lit "page__") s with
  | Some r =>
      match fst (span isdigit (dropwhile isspace r)) with
      | [] => None
      | ds => Some ds
      end
  | None => None
  end.

(** [re.findall(r"page__\s*(\d+)", html)].  A match holds the letter [p]
    at its head only, so no match starts inside another and it is enough
    to try every position. *)
Fixpoint page_markers (s : str) : list str :=
  match s with
  | [] => []
  | _ :: r =>
      match page_marker s with
      | Some ds => ds :: page_markers r
      | None => page_markers r
      end
  end.

(** [int(n)] on a run of decimal digits. *)
Definition int_of_digits (ds : str) : Z :=
  match digits_value ds with Some n => Z.of_N n | None => 0%Z end.

(** [max(pages)] for a list that is not empty. *)
Definition max_list (l : list Z) : Z :=
  match l with
  | [] => 0%Z
  | x :: r => fold_left Z.max r x
  end.

Definition get_total_pages (html : str) : Z :=
  match html with
  | [] => 0%Z
  | _ =>
      match map int_of_digits (page_markers html) with
      | [] => 1%Z
      | pages => max_list pages
      end
  end.

(** ** What a run does to the outside world *)

Module ProductRow.
(** One element of the batch handed to [upsert_products]: the
    parameters of the [INSERT] statement. *)
Record t : Type := {
  name : str;
  price : option hundredths;
  category_id : Z;
  category_slug : str;
  product_id : Z + str;
  product_name : str;
  product_img : option str;
  product_characs : list (str * str);
  slug : option str
}.
End ProductRow.

(** The checkpoint: [progress] in the source, a dictionary with the keys
    [completed_categories] and [category_pages]; the inner dictionary is
    kept in insertion order, as [json.dumps] writes it. *)
Record CrawlProgress : Type := {
  completed_categories : list Z;
  category_pages : list (str * Z)
}.

Inductive effect : Type :=
| Get (slug : str) (page : Z)          (* [client.get] of a listing address *)
| Sleep (seconds : Q)                  (* [asyncio.sleep] *)
| Upsert (batch : list ProductRow.t)          (* [upsert_products], when it ran *)
| Save (p : CrawlProgress).            (* [save_progress] *)

(** ** [async_fetch_listing] *)

Inductive http_error : Type :=
| ReadTimeout
| ConnectTimeout
| RemoteProtocolError
| ConnectError
| OtherError.

(** What one [client.get] gives: a response or a raised exception. *)
Inductive outcome : Type :=
| Response (status_code : Z) (text : str)
| Raises (e : http_error).

Definition ASYNC_BASE_DELAY : Q := 1 # 4.

Definition retry_status (status_code : Z) : bool :=
  existsb (Z.eqb status_code) [429; 500; 502; 503; 504]%Z.

Definition retry_error (e : http_error) : bool :=
  match e with
  | ReadTimeout | ConnectTimeout | RemoteProtocolError | ConnectError => true
  | OtherError => false
  end.

Definition next_backoff (backoff : Q) : Q := Qred (Qmin (backoff * 2) 8).

(** The loop [for attempt in range(4)] with [n] rounds left; [resp] gives
    the outcome of each attempt.  The result is the page text or [None],
    with the requests and sleeps made. *)
Fixpoint fetch_loop (n attempt : nat) (backoff : Q) (resp : nat -> outcome)
    (slug : str) (page : Z) : option str * list effect :=
  match n with
  | O => (None, [])
  | S n' =>
      let again :=
        let '(r, l) := fetch_loop n' (S attempt) (next_backoff backoff)
                                  resp slug page in
        (r, Get slug page :: Sleep backoff :: l) in
      match resp attempt with
      | Response status_code text =>
          if (status_code =? 200)%Z && nonempty text
          then (Some text, [Get slug page])
          else if retry_status status_code then again
          else (None, [Get slug page])
      | Raises e =>
          if retry_error e then again else (None, [Get slug page])
      end
  end.

Definition async_fetch_listing (resp : nat -> outcome) (slug : str)
    (page : Z) : option str * list effect :=
  fetch_loop 4 0 ASYNC_BASE_DELAY resp slug page.

(** [async_get_total_pages] *)
Definition async_get_total_pages (resp : nat -> outcome) (slug : str)
    : Z * list effect :=
  let '(html, l) := async_fetch_listing resp slug 1 in
  (match html with
   | Some h => if nonempty h then get_total_pages h else 0%Z
   | None => 0%Z
   end, l).

Definition always (o : outcome) : nat -> outcome := fun _ => o.

(** ** The checkpoint and its file *)

(** [str(n)] for an integer. *)
Definition str_of_Z (n : Z) : str := lit (NilZero.string_of_int (Z.to_int n)).

(** Dictionary operations, insertion order kept. *)
Fixpoint dict_get (k : str) (d : list (str * Z)) : option Z :=
  match d with
  | [] => None
  | (k', v) :: r => if str_eqb k' k then Some v else dict_get k r
  end.

Fixpoint dict_set (k : str) (v : Z) (d : list (str * Z)) : list (str * Z) :=
  match d with
  | [] => [(k, v)]
  | (k', v') :: r =>
      if str_eqb k' k then (k, v) :: r else (k', v') :: dict_set k v r
  end.

(** [del d[k]]: no entry for [k] is left. *)
Definition dict_del (k : str) (d : list (str * Z)) : list (str * Z) :=
  filter (fun kv => negb (str_eqb (fst kv) k)) d.

(** [sorted(list(set(l)))] *)
Fixpoint insert_sorted (x : Z) (l : list Z) : list Z :=
  match l with
  | [] => [x]
  | y :: r =>
      if (x <? y)%Z then x :: l
      else if (x =? y)%Z then l
      else y :: insert_sorted x r
  end.

Definition sorted_set (l : list Z) : list Z := fold_right insert_sorted [] l.

(** [sep.join(parts)] *)
Fixpoint join (sep : str) (parts : list str) : str :=
  match parts with
  | [] => []
  | [p] => p
  | p :: rest => p ++ sep ++ join sep rest
  end.

Definition LF : char := 10.

(** [json.dumps(progress, ensure_ascii=False, indent=2)] for a checkpoint
    whose keys need no escaping. *)
Definition json_dumps (p : CrawlProgress) : str :=
  let ids :=
    match completed_categories p with
    | [] => lit "[]"
    | l => lit "[" ++ [LF]
           ++ join (lit "," ++ [LF]) (map (fun i => lit "    " ++ str_of_Z i) l)
           ++ [LF] ++ lit "  ]"
    end in
  let pages :=
    match category_pages p with
    | [] => lit "{}"
    | d => lit "{" ++ [LF]
           ++ join (lit "," ++ [LF])
                (map (fun kv => lit "    " ++ [34] ++ fst kv ++ [34]
                                ++ lit ": " ++ str_of_Z (snd kv)) d)
           ++ [LF] ++ lit "  }"
    end in
  lit "{" ++ [LF]
  ++ lit "  " ++ [34] ++ lit "completed_categories" ++ [34] ++ lit ": " ++ ids
  ++ lit "," ++ [LF]
  ++ lit "  " ++ [34] ++ lit "category_pages" ++ [34] ++ lit ": " ++ pages
  ++ [LF] ++ lit "}".

(** The file [data/parse_progress.json] as other processes see it:
    absent, or its content. *)
Definition file := option str.

(** The operations [save_progress] performs on the file, one after the
    other; creating the directory does not touch it. *)
Inductive file_op : Type :=
| OpenTruncate            (* [open(path, "w")]: create, or cut to length 0 *)
| WriteText (s : str)     (* [f.write(s)]: the text goes to the buffer *)
| CloseFile.              (* leaving [with]: the buffer reaches the file *)

(** An open handle: the file and the text written but not yet flushed. *)
Record handle_state : Type := { on_disk : file; pending : str }.

Definition file_step (h : handle_state) (op : file_op) : handle_state :=
  match op with
  | OpenTruncate => {| on_disk := Some []; pending := [] |}
  | WriteText s => {| on_disk := on_disk h; pending := pending h ++ s |}
  | CloseFile =>
      {| on_disk := Some (or_empty (on_disk h) ++ pending h); pending := [] |}
  end.

(** The states passed through while a list of operations runs. *)
Fixpoint run_file_ops (h : handle_state) (ops : list file_op)
    : list handle_state :=
  match ops with
  | [] => []
  | op :: r => let h' := file_step h op in h' :: run_file_ops h' r
  end.

Definition save_progress_ops (p : CrawlProgress) : list file_op :=
  let tmp := json_dumps p in
  [OpenTruncate; WriteText tmp; CloseFile].

(** What a reader of the file can find while [save_progress] runs. *)
Definition save_progress_states (p : CrawlProgress) (before : file)
    : list file :=
  map on_disk
      (run_file_ops {| on_disk := before; pending := [] |}
                    (save_progress_ops p)).

(** [save_progress]: the file when the call returns. *)
Definition save_progress (p : CrawlProgress) (before : file) : file :=
  last (save_progress_states p before) before.

(** ** The table [tr_products_raw] and [upsert_products] *)

(** The table, one entry per value of the primary key [sku], holding the
    columns the statement writes. *)
Definition table := list (str * ProductRow.t).

(** The value the [INSERT] statement binds to the column [sku]: the
    parameter named [name]. *)
Definition sku_of (r : ProductRow.t) : str := ProductRow.name r.

(** [INSERT ... ON CONFLICT (sku) DO UPDATE SET ...] for one row: every
    other column is overwritten when the key is already there. *)
Fixpoint upsert_row (r : ProductRow.t) (t : table) : table :=
  match t with
  | [] => [(sku_of r, r)]
  | (k, old) :: rest =>
      if str_eqb k (sku_of r) then (k, r) :: rest
      else (k, old) :: upsert_row r rest
  end.

(** [cur.executemany(statement, rows)]: the rows one after the other. *)
Definition upsert_products (rows : list ProductRow.t) (t : table) : table :=
  fold_left (fun t r => upsert_row r t) rows t.

(** ** [process_page] *)

Record world : Type := {
  progress : CrawlProgress;        (* the shared dictionary [progress] *)
  checkpoint : file;               (* [data/parse_progress.json] *)
  products : table;                (* [tr_products_raw] *)
  log : list effect                (* what was done, oldest first *)
}.

Definition add_log (l : list effect) (w : world) : world :=
  {| progress := progress w; checkpoint := checkpoint w;
     products := products w; log := log w ++ l |}.

(** How a coroutine ends: with a value, or with an exception. *)
Inductive completion : Type :=
| Returned (ok : bool)
| Failed.

Section Crawl.
Variable L : Library.

(** The dictionary appended to [batch] for one retained card. *)
Definition make_row (category_id : Z) (category_slug : str) (prod : Item.t)
  : ProductRow.t :=
  {| ProductRow.name := Item.name prod;
     ProductRow.price := Item.price prod;
     ProductRow.category_id := category_id;
     ProductRow.category_slug := category_slug;
     ProductRow.product_id :=
       match int_of_str L (Item.product_id prod) with
       | Some n => inl n
       | None => inr (Item.product_id prod)
       end;
     ProductRow.product_name := Item.product_name prod;
     ProductRow.product_img := Item.product_img prod;
     ProductRow.product_characs :=
       match Item.product_characs prod with Some l => l | None => [] end;
     ProductRow.slug := Item.slug prod |}.

(** The assignment to [category_pages] and the save under the lock. *)
Definition advance (category_id page : Z) (w : world) : world :=
  let category_pages :=
    dict_set (str_of_Z category_id) (page + 1)%Z
             (category_pages (progress w)) in
  let progress :=
    {| completed_categories := completed_categories (progress w);
       category_pages := category_pages |} in
  {| progress := progress;
     checkpoint := save_progress progress (checkpoint w);
     products := products w;
     log := log w ++ [Save progress] |}.

(** [process_page] for one page.  [resp] gives what the client answers
    to each attempt, [db_up] tells whether [upsert_products] reaches the
    database or raises.  The choice of a proxy and of a pooled client
    fixes the route only and is left to [resp]. *)
Definition process_page (resp : nat -> outcome) (db_up : bool)
    (slug : str) (page : Z) (category_id : Z) (category_slug : str)
    (w : world) : completion * world :=
  let '(html, l) := async_fetch_listing resp slug page in
  let w := add_log l w in
  match html with
  | None => (Returned false, w)
  | Some [] => (Returned false, w)
  | Some h =>
      match extract_products_from_html L h with
      | [] => (Returned false, w)
      | its =>
          let batch := map (make_row category_id category_slug) its in
          if db_up
          then
            let w :=
              {| progress := progress w; checkpoint := checkpoint w;
                 products := upsert_products batch (products w);
                 log := log w ++ [Upsert batch] |} in
            (Returned true, advance category_id page w)
          else (Failed, w)
      end
  end.

(** ** [process_category_async] *)

(** [range(a, b)] *)
Definition range (a b : Z) : list Z :=
  map (fun i => (a + Z.of_nat i)%Z) (seq 0 (Z.to_nat (b - a))).

(** What the run meets: the answers to the request that sizes the
    category and to the requests of every page, the state of the
    database when a page is written, and the order in which the event
    loop lets the page tasks finish. *)
Record environment : Type := {
  size_resp : nat -> outcome;
  page_resp : Z -> nat -> outcome;
  db_up : Z -> bool;
  completion_order : list Z -> list Z
}.

(** The block that closes a category. *)
Definition complete (category_id : Z) (w : world) : world :=
  let progress :=
    {| completed_categories :=
         sorted_set (category_id :: completed_categories (progress w));
       category_pages :=
         dict_del (str_of_Z category_id) (category_pages (progress w)) |} in
  {| progress := progress;
     checkpoint := save_progress progress (checkpoint w);
     products := products w;
     log := log w ++ [Save progress] |}.

(** The page tasks, each run to its end in the order [order]; a task
    that raises is passed over. *)
Definition run_pages (env : environment) (category_id : Z) (slug : str)
    (order : list Z) (w : world) : world :=
  fold_left
    (fun w p => snd (process_page (page_resp env p) (db_up env p)
                                  slug p category_id slug w))
    order w.

Definition start_page_of (category_id : Z) (p : CrawlProgress) : Z :=
  match dict_get (str_of_Z category_id) (category_pages p) with
  | Some n => n
  | None => 1%Z
  end.

Definition process_category_async (env : environment) (category_id : Z)
    (slug : str) (w : world) : world :=
  let start_page := start_page_of category_id (progress w) in
  let '(total_pages, l) := async_get_total_pages (size_resp env) slug in
  let w := add_log l w in
  if (total_pages <=? 0)%Z then w
  else
    let tasks := range start_page (total_pages + 1) in
    let w := run_pages env category_id slug (completion_order env tasks) w in
    complete category_id w.
End Crawl.

(** ** A page for the examples *)

(** A listing with two cards: the first has a name and a price, the second
    a name and no price. *)
Definition sample_page : str :=
  lit "<ul><li class='listing-cards__item' data-product-id='101'><meta itemprop='name' content='Pipe 57x3'><span class='price'>1 200 rub</span></li><li class='listing-cards__item' data-product-id='102'><meta itemprop='name' content='Pipe 76x4'><span>ask us</span></li></ul>".

(** The handler calls [HTMLParser] makes for [sample_page]. *)
Definition sample_events : list event :=
  [ StartTag (lit "ul") [];
    StartTag (lit "li") [(lit "class", Some (lit "listing-cards__item"));
                         (lit "data-product-id", Some (lit "101"))];
    StartTag (lit "meta") [(lit "itemprop", Some (lit "name"));
                           (lit "content", Some (lit "Pipe 57x3"))];
    StartTag (lit "span") [(lit "class", Some (lit "price"))];
    Data (lit "1 200 rub");
    EndTag (lit "span");
    EndTag (lit "li");
    StartTag (lit "li") [(lit "class", Some (lit "listing-cards__item"));
                         (lit "data-product-id", Some (lit "102"))];
    StartTag (lit "meta") [(lit "itemprop", Some (lit "name"));
                           (lit "content", Some (lit "Pipe 76x4"))];
    StartTag (lit "span") [];
    Data (lit "ask us");
    EndTag (lit "span");
    EndTag (lit "li");
    EndTag (lit "ul") ].

(** A listing whose only card has no price. *)
Definition priceless_page : str :=
  lit "<ul><li class='listing-cards__item' data-product-id='102'><meta itemprop='name' content='Pipe 76x4'><span>ask us</span></li></ul>".

Definition priceless_events : list event :=
  [ StartTag (lit "ul") [];
    StartTag (lit "li") [(lit "class", Some (lit "listing-cards__item"));
                         (lit "data-product-id", Some (lit "102"))];
    StartTag (lit "meta") [(lit "itemprop", Some (lit "name"));
                           (lit "content", Some (lit "Pipe 76x4"))];
    StartTag (lit "span") [];
    Data (lit "ask us");
    EndTag (lit "span");
    EndTag (lit "li");
    EndTag (lit "ul") ].

(** A listing whose only card has its price and its unit on two lines. *)
Definition two_line_price_page : str :=
  lit "<ul><li class='listing-cards__item' data-product-id='103'><meta itemprop='name' content='Pipe 89x4'><span class='price'>1 200"
  ++ [LF] ++ lit "rub</span></li></ul>".

Definition two_line_price_events : list event :=
  [ StartTag (lit "ul") [];
    StartTag (lit "li") [(lit "class", Some (lit "listing-cards__item"));
                         (lit "data-product-id", Some (lit "103"))];
    StartTag (lit "meta") [(lit "itemprop", Some (lit "name"));
                           (lit "content", Some (lit "Pipe 89x4"))];
    StartTag (lit "span") [(lit "class", Some (lit "price"))];
    Data (lit "1 200" ++ [LF] ++ lit "rub");
    EndTag (lit "span");
    EndTag (lit "li");
    EndTag (lit "ul") ].

(** A page with markup and no card. *)
Definition empty_page : str := lit "<ul class='listing-cards'></ul>".

Definition empty_page_events : list event :=
  [ StartTag (lit "ul") [(lit "class", Some (lit "listing-cards"))];
    EndTag (lit "ul") ].

(** A library that knows these pages; numbers are read digit by digit. *)
Definition sample_library : Library :=
  {| feed_events := fun html =>
       if str_eqb html sample_page then sample_events
       else if str_eqb html priceless_page then priceless_events
       else if str_eqb html two_line_price_page then two_line_price_events
       else if str_eqb html empty_page then empty_page_events
       else [];
     close_events := fun _ => [];
     urljoin := fun base url => Some (base ++ url);
     urlparse_path := fun url => Some url;
     int_of_str := fun s => option_map Z.of_N (digits_value s) |}.

Definition sample_item : Item.t :=
  {| Item.product_id := lit "101";
     Item.name := lit "Pipe 57x3";
     Item.price := Some 120000;
     Item.product_name := lit "Pipe 57x3";
     Item.product_img := None;
     Item.product_characs := None;
     Item.slug := None |}.

(** ** Notions used in the statements *)

Definition is_request (e : effect) : Prop :=
  match e with
  | Get _ _ | Sleep _ => True
  | Upsert _ | Save _ => False
  end.

Definition new_world : world :=
  {| progress := {| completed_categories := []; category_pages := [] |};
     checkpoint := None; products := []; log := [] |}.

Definition sample_row : ProductRow.t :=
  make_row sample_library 42 (lit "pipes") sample_item.

(** A condition the loop answers with a sleep and another attempt. *)
Definition transient (o : outcome) : bool :=
  match o with
  | Response status_code text =>
      negb ((status_code =? 200)%Z && nonempty text)
      && retry_status status_code
  | Raises e => retry_error e
  end.

(** What an attempt that ends the loop returns. *)
Definition body_of (o : outcome) : option str :=
  match o with
  | Response status_code text =>
      if (status_code =? 200)%Z && nonempty text then Some text else None
  | Raises _ => None
  end.

Fixpoint requests (l : list effect) : nat :=
  match l with
  | Get _ _ :: r => S (requests r)
  | _ :: r => requests r
  | [] => 0
  end.

Fixpoint sleeps (l : list effect) : list Q :=
  match l with
  | Sleep d :: r => d :: sleeps r
  | _ :: r => sleeps r
  | [] => []
  end.

(** The delays of [n] rounds that start with [b]. *)
Fixpoint backoffs (b : Q) (n : nat) : list Q :=
  match n with
  | O => []
  | S n' => b :: backoffs (next_backoff b) n'
  end.

(** The checkpoints saved, oldest first, and the cursor of a category in
    each of them. *)
Fixpoint saves (l : list effect) : list CrawlProgress :=
  match l with
  | Save p :: r => p :: saves r
  | _ :: r => saves r
  | [] => []
  end.

Definition saved_cursors (category_id : Z) (l : list effect)
    : list (option Z) :=
  map (fun p => dict_get (str_of_Z category_id) (category_pages p)) (saves l).

(** The pages whose task reaches the assignment under the lock: fetched,
    with a retained card, and written to the database. *)
Definition advances (L : Library) (env : environment) (slug : str) (p : Z)
    : bool :=
  match fst (async_fetch_listing (page_resp env p) slug p) with
  | Some h =>
      match extract_products_from_html L h with
      | [] => false
      | _ :: _ => db_up env p
      end
  | None => false
  end.

(** The cursors saved one after the other never get smaller. *)
Definition never_regresses (cursors : list (option Z)) : Prop :=
  forall i j a b,
    (i < j)%nat ->
    nth_error cursors i = Some (Some a) ->
    nth_error cursors j = Some (Some b) ->
    (a <= b)%Z.

(** A site with three pages of [sample_page], a database that is up, and
    page tasks that finish in the order [order]. *)
Definition three_pages (order : list Z) : environment :=
  {| size_resp :=
       always (Response 200 (lit "<a href='/catalog/pipes/page__3/'>3</a>"));
     page_resp := fun _ => always (Response 200 sample_page);
     db_up := fun _ => true;
     completion_order := fun _ => order |}.

(** A checkpoint loaded with [category_pages = {"42": 5}]. *)
Definition resumed_world : world :=
  {| progress := {| completed_categories := [];
                    category_pages := [(lit "42", 5%Z)] |};
     checkpoint := None; products := []; log := [] |}.

(** A site with six pages of [sample_page]; the page tasks finish last
    first. *)
Definition six_pages : environment :=
  {| size_resp :=
       always (Response 200 (lit "<a href='/catalog/pipes/page__6/'>6</a>"));
     page_resp := fun _ => always (Response 200 sample_page);
     db_up := fun _ => true;
     completion_order := fun tasks => rev tasks |}.

(** A site with two pages: the requests for page 1 are all answered 503,
    page 2 is [sample_page]. *)
Definition first_page_down : environment :=
  {| size_resp :=
       always (Response 200 (lit "<a href='/catalog/pipes/page__2/'>2</a>"));
     page_resp := fun p =>
       if (p =? 1)%Z then always (Response 503 [])
       else always (Response 200 sample_page);
     db_up := fun _ => true;
     completion_order := fun tasks => tasks |}.

(** A category whose listing is always answered 503. *)
Definition dead_category : environment :=
  {| size_resp := always (Response 503 []);
     page_resp := fun _ => always (Response 503 []);
     db_up := fun _ => true;
     completion_order := fun tasks => tasks |}.

(** A category whose page 1 has neither pagination marker nor card. *)
Definition empty_category : environment :=
  {| size_resp := always (Response 200 empty_page);
     page_resp := fun _ => always (Response 200 empty_page);
     db_up := fun _ => true;
     completion_order := fun tasks => tasks |}.

(** ** Total time asleep *)

(** The seconds spent in [sleep] over a log. *)
Definition total_sleep (l : list effect) : Q :=
  fold_right Qplus 0%Q (sleeps l).

(** ** Cards opened and cards seen *)

(** A start tag that opens a card. *)
Definition opens_card (e : event) : bool :=
  match e with
  | StartTag tag a =>
      str_eqb tag (lit "li")
      && contains (lit "listing-cards__item")
                  (or_empty (attr_get a (lit "class")))
      && truthy (por (attr_get a (lit "data-product-id"))
                     (por (attr_get a (lit "data-id"))
                          (attr_get a (lit "data-productid"))))
  | _ => false
  end.

(** The number of card-opening tags among the events. *)
Definition cards_opened (evs : list event) : nat :=
  List.length (filter opens_card evs).

(** The cards seen so far: those finalized and the one still open. *)
Definition cards_seen (p : ListingParser) : nat :=
  (List.length (items p) + if in_item p then 1 else 0)%nat.

(** A card with a name has a short name too. *)
Definition named_in_full (it : Item.t) : Prop :=
  Item.name it <> [] -> Item.product_name it <> [].

(** What one handler call may do: the flag and the card agree, cards
    already finalized stay, those added carry a short name when they have
    a name, and the number of cards seen grows by the cards opened. *)
Definition step_ok (p q : ListingParser) (opened : nat) : Prop :=
  card_open q
  /\ (exists extra, items q = items p ++ extra /\ Forall named_in_full extra)
  /\ cards_seen q = (cards_seen p + opened)%nat.

(** [q] differs from [p] in what is collected for the open card only. *)
Definition same_cards (p q : ListingParser) : Prop :=
  (card_open p -> card_open q)
  /\ items q = items p /\ in_item q = in_item p.

(** ** [ProxyRotator] and [AsyncHttpClientPool] *)

Module Rotator.
Record t : Type := { proxies : list str; idx : nat }.

(** [ProxyRotator(proxies)]; [shuffle] is what [random.shuffle] made of the
    copy of the list. *)
Definition init (shuffle : list str -> list str) (l : list str) : t :=
  {| proxies := shuffle l; idx := 0 |}.

(** [next]: the value returned, [None] for an empty pool, and the rotator
    after the call. *)
Definition next (r : t) : option str * t :=
  match proxies r with
  | [] => (None, r)
  | _ :: _ =>
      (Some (nth (idx r) (proxies r) []),
       {| proxies := proxies r;
          idx := (idx r + 1) mod List.length (proxies r) |})
  end.

(** [k] calls of [next] in a row: the values returned and the rotator left. *)
Fixpoint nexts (k : nat) (r : t) : list (option str) * t :=
  match k with
  | O => ([], r)
  | S k' =>
      let '(v, r1) := next r in
      let '(vs, r2) := nexts k' r1 in
      (v :: vs, r2)
  end.
End Rotator.

Module ClientPool.
(** A client, known by the [proxies] argument it was made with. *)
Definition client := option str.

(** [self._clients], in insertion order. *)
Definition t := list (str * client).

(** [proxy_url or "__direct__"] *)
Definition key_of (proxy_url : option str) : str :=
  if truthy proxy_url then or_empty proxy_url else lit "__direct__".

(** [self._clients.get(key)] *)
Fixpoint lookup (key : str) (pool : t) : option client :=
  match pool with
  | [] => None
  | (k, c) :: rest => if str_eqb k key then Some c else lookup key rest
  end.

(** [get_client]: the client returned and the pool after the call. *)
Definition get_client (pool : t) (proxy_url : option str) : client * t :=
  let key := key_of proxy_url in
  match lookup key pool with
  | Some c => (c, pool)
  | None => (proxy_url, pool ++ [(key, proxy_url)])
  end.

(** Every client is filed under the key of its own route, once. *)
Definition well_keyed (pool : t) : Prop :=
  NoDup (map fst pool)
  /\ forall k c, In (k, c) pool -> key_of c = k.
End ClientPool.

(** ** Entries of other categories *)

(** The list of completed categories is the same, and so is the cursor of
    every category other than [cid]. *)
Definition other_untouched (cid : Z) (p q : CrawlProgress) : Prop :=
  completed_categories q = completed_categories p
  /\ forall cid', cid' <> cid ->
       dict_get (str_of_Z cid') (category_pages q)
       = dict_get (str_of_Z cid') (category_pages p).

(** ** Reading the table *)

(** The row stored under a key: [SELECT ... WHERE sku = k]. *)
Fixpoint table_get (k : str) (t : table) : option ProductRow.t :=
  match t with
  | [] => None
  | (k', r) :: rest => if str_eqb k' k then Some r else table_get k rest
  end.

(** The last row of a batch that is written under the key [k]. *)
Definition last_for (k : str) (rows : list ProductRow.t) : option ProductRow.t :=
  find (fun r => str_eqb (sku_of r) k) (rev rows).

(** ** The sequential crawler *)

(** What one [session.get] gives: a response, or an exception of
    [requests] (connection error, timeout, any [RequestException]). *)
Inductive sync_outcome : Type :=
| Answer (status_code : Z) (text : str)
| RequestFailed.

(** [r.ok]: the status is not a client or server error. *)
Definition response_ok (status_code : Z) : bool :=
  negb ((400 <=? status_code)%Z && (status_code <? 600)%Z).

(** The loop [for attempt in range(max_retries)] of [get_listing] with [n]
    rounds left: the pair returned and the requests and sleeps made. *)
Fixpoint get_listing_loop (n attempt : nat) (should_recreate : bool)
    (answer : nat -> sync_outcome) (slug : str) (page : Z)
    : (option str * bool) * list effect :=
  match n with
  | O => ((None, should_recreate), [])
  | S n' =>
      match answer attempt with
      | Answer status_code text =>
          if response_ok status_code && nonempty text
          then ((Some text, false), [Get slug page])
          else if (status_code =? 429)%Z
          then
            let '(r, l) := get_listing_loop n' (S attempt) true
                                            answer slug page in
            (r, Get slug page :: Sleep 10 :: l)
          else ((None, false), [Get slug page])
      | RequestFailed =>
          if (attempt <? 3 - 1)%nat
          then
            let '(r, l) := get_listing_loop n' (S attempt) true
                                            answer slug page in
            (r, Get slug page
                  :: Sleep (inject_Z ((Z.of_nat attempt + 1) * 5)) :: l)
          else ((None, true), [Get slug page])
      end
  end.

Definition get_listing (answer : nat -> sync_outcome) (slug : str) (page : Z)
    : (option str * bool) * list effect :=
  get_listing_loop 3 0 false answer slug page.

Definition SLEEP_BETWEEN : Q := 2.

(** The site as the sequential crawler meets it: the answers to the
    requests for each page and the state of the database when the page is
    written. *)
Record site : Type := {
  listing : Z -> nat -> sync_outcome;
  database_up : Z -> bool
}.

(** How the loop over the pages of a category ends: the generator is
    exhausted, or [upsert_products] raised. *)
Inductive ending : Type :=
| Drained
| Aborted.

Section Sequential.
Variable L : Library.

(** The loop of [parse_all_products] over the pairs that
    [scrape_category_pages] yields, from [page] on.  [fuel] bounds the
    number of pages read; [None] when it runs out. *)
Fixpoint crawl_pages (fuel : nat) (s : site) (category_id : Z) (slug : str)
    (page : Z) (w : world) : option (ending * world) :=
  match fuel with
  | O => None
  | S fuel' =>
      let '((html, should_recreate), l) :=
        get_listing (listing s page) slug page in
      let w := add_log (l ++ if should_recreate then [Sleep 5] else []) w in
      match html with
      | None => Some (Drained, w)
      | Some [] => Some (Drained, w)
      | Some h =>
          match extract_products_from_html L h with
          | [] => Some (Drained, w)
          | its =>
              let batch := map (make_row L category_id slug) its in
              if database_up s page
              then
                let w :=
                  {| progress := progress w; checkpoint := checkpoint w;
                     products := upsert_products batch (products w);
                     log := log w ++ [Upsert batch] |} in
                let w := advance category_id page w in
                let w := add_log [Sleep SLEEP_BETWEEN; Sleep SLEEP_BETWEEN] w in
                crawl_pages fuel' s category_id slug (page + 1) w
              else Some (Aborted, w)
          end
      end
  end.

(** The body of the loop of [parse_all_products] for one category;
    [completed] is the local set of finished categories. *)
Definition parse_category (fuel : nat) (s : site) (category_id : Z)
    (slug : str) (completed : list Z) (w : world)
    : option (list Z * world) :=
  if existsb (Z.eqb category_id) completed then Some (completed, w)
  else
    let start_page := start_page_of category_id (progress w) in
    match crawl_pages fuel s category_id slug (Z.max 1 start_page) w with
    | None => None
    | Some (Drained, w) =>
        let completed := category_id :: completed in
        let progress :=
          {| completed_categories := sorted_set completed;
             category_pages :=
               dict_del (str_of_Z category_id)
                        (category_pages (progress w)) |} in
        Some (completed,
              {| progress := progress;
                 checkpoint := save_progress progress (checkpoint w);
                 products := products w;
                 log := log w ++ [Save progress; Sleep 3] |})
    | Some (Aborted, w) => Some (completed, add_log [Sleep 5] w)
    end.
End Sequential.

(** The retained cards of a page of the site, when it is fetched and has
    some. *)
Definition page_content (L : Library) (s : site) (slug : str) (p : Z)
    : option (list Item.t) :=
  match fst (fst (get_listing (listing s p) slug p)) with
  | Some (c :: h) =>
      match extract_products_from_html L (c :: h) with
      | [] => None
      | its => Some its
      end
  | _ => None
  end.

(** What reading page [p] adds to the log before the page is used. *)
Definition page_requests (s : site) (slug : str) (p : Z) : list effect :=
  snd (get_listing (listing s p) slug p)
  ++ if snd (fst (get_listing (listing s p) slug p)) then [Sleep 5] else [].

(** What the loop does when the pages [page], ..., [page + k - 1] are
    read and written and page [page + k] stops it. *)
Definition stops_at (L : Library) (s : site) (slug : str) (p : Z)
    : option ending :=
  match page_content L s slug p with
  | None => Some Drained
  | Some _ => if database_up s p then None else Some Aborted
  end.

(** The page a run of the category starts with. *)
Definition first_page (cid : Z) (w : world) : Z :=
  Z.max 1 (start_page_of cid (progress w)).

(** The cursors [a + 1], ..., [a + k]. *)
Definition counting_up (a : Z) (k : nat) : list (option Z) :=
  map (fun i => Some (a + Z.of_nat i + 1)%Z) (seq 0 k).

(** A category of two pages of [sample_page]; the third page has no card. *)
Definition two_page_site : site :=
  {| listing := fun p _ =>
       if (p <? 3)%Z then Answer 200 sample_page else Answer 200 empty_page;
     database_up := fun _ => true |}.

(** A site whose database goes down when the second page is written. *)
Definition database_down_site : site :=
  {| listing := fun _ _ => Answer 200 sample_page;
     database_up := fun p => (p <? 2)%Z |}.

(** ** [parse_selected_categories_async] *)

(** [[(cid, slug) for cid, slug in categories if cid not in completed]] *)
Definition not_completed (completed : list Z) (categories : list (Z * str))
    : list (Z * str) :=
  filter (fun c => negb (existsb (Z.eqb (fst c)) completed)) categories.

(** [parse_selected_categories_async].  [categories] is what the query
    gives: the leaf categories among [category_ids], ordered by id;
    [site cid] is the site and the database as the run of category [cid]
    meets them; the loaded progress is the one of [w]. *)
Definition parse_selected_categories_async (L : Library)
    (site : Z -> environment) (category_ids : list Z)
    (categories : list (Z * str)) (w : world) : world :=
  match category_ids with
  | [] => w
  | _ :: _ =>
      match categories with
      | [] => w
      | _ :: _ =>
          let completed := completed_categories (progress w) in
          fold_left
            (fun w c =>
               process_category_async L (site (fst c)) (fst c) (snd c) w)
            (not_completed completed categories) w
      end
  end.

(** The category has at least one page when it is sized. *)
Definition sized (site : Z -> environment) (c : Z * str) : Prop :=
  (0 < fst (async_get_total_pages (size_resp (site (fst c))) (snd c)))%Z.

(** ** [get_category_pagination_stats] *)



(** * Properties *)

(** ** Worked examples *)

Example get_total_pages_3 :
  get_total_pages (lit "<a href=page__2/> <a href=page__ 3/> page__x") = 3%Z.
Proof. reflexivity. Qed.

Example fetch_503_then_ok :
  async_fetch_listing
    (fun k => if (k <? 3)%nat then Response 503 [] else Response 200 (lit "ok"))
    (lit "pipes") 2
  = (Some (lit "ok"),
     [Get (lit "pipes") 2; Sleep (1 # 4); Get (lit "pipes") 2; Sleep (1 # 2);
      Get (lit "pipes") 2; Sleep 1; Get (lit "pipes") 2]).
Proof. reflexivity. Qed.

Example json_dumps_example :
  json_dumps {| completed_categories := [7; 9]%Z;
                category_pages := [(lit "42", 5%Z)] |}
  = lit "{" ++ [LF] ++ lit "  " ++ [34] ++ lit "completed_categories" ++ [34]
    ++ lit ": [" ++ [LF] ++ lit "    7," ++ [LF] ++ lit "    9" ++ [LF]
    ++ lit "  ]," ++ [LF] ++ lit "  " ++ [34] ++ lit "category_pages" ++ [34]
    ++ lit ": {" ++ [LF] ++ lit "    " ++ [34] ++ lit "42" ++ [34]
    ++ lit ": 5" ++ [LF] ++ lit "  }" ++ [LF] ++ lit "}".
Proof. reflexivity. Qed.

Example sample_page_cards :
  map Item.product_id (parser_items sample_library sample_page)
  = [lit "101"; lit "102"].
Proof. vm_compute. reflexivity. Qed.

Example parse_price_rub :
  parse_price (lit "12 345,67 " ++ [RUBLE]) = Some 1234567.
Proof. reflexivity. Qed.

Example parse_price_999 : parse_price (lit "999") = Some 99900.
Proof. reflexivity. Qed.

Example parse_price_dash : parse_price [EM_DASH] = None.
Proof. reflexivity. Qed.

(** ** Price normaliser *)

Lemma PRICE_RE_match_digit s m :
  PRICE_RE_match s = Some m -> exists c r, s = c :: r /\ isdigit c = true.
Proof.
  destruct s as [|c r]; simpl; [discriminate|].
  destruct (isdigit c) eqn:E; [|discriminate].
  intros _. exists c, r. auto.
Qed.

Lemma PRICE_RE_search_none s :
  forallb (fun c => negb (isdigit c)) s = true -> PRICE_RE_search s = None.
Proof.
  induction s as [|c r IH]; simpl; [reflexivity|].
  intros H. apply andb_true_iff in H. destruct H as [Hc Hr].
  destruct (isdigit c); [discriminate|]. auto.
Qed.

Lemma forallb_replace1 (p : char -> bool) old new s :
  forallb p new = true -> forallb p s = true ->
  forallb p (replace1 old new s) = true.
Proof.
  intros Hn. unfold replace1. induction s as [|c r IH]; simpl; [reflexivity|].
  intros H. apply andb_true_iff in H. destruct H as [Hc Hr].
  rewrite forallb_app. destruct (c =? old); simpl.
  - rewrite Hn. simpl. auto.
  - rewrite Hc. simpl. auto.
Qed.

(** A text without any decimal digit has no price. *)
Lemma parse_price_no_digit text :
  forallb (fun c => negb (isdigit c)) text = true -> parse_price text = None.
Proof.
  intros H. unfold parse_price. destruct text as [|c r]; [reflexivity|].
  rewrite PRICE_RE_search_none; [reflexivity|].
  apply forallb_replace1; [reflexivity|exact H].
Qed.

Lemma digit_value_isdigit c :
  isdigit c = true -> exists d, digit_value c = Some d.
Proof. unfold isdigit. destruct (digit_value c); [eauto|discriminate]. Qed.

Lemma digit_step_none s : fold_left digit_step s None = None.
Proof. induction s; simpl; auto. Qed.

Lemma digits_all acc s :
  forallb isdigit s = true ->
  exists v, fold_left digit_step s (Some acc) = Some v.
Proof.
  revert acc. induction s as [|c s IH]; intros acc; [simpl; eauto|].
  cbn [forallb fold_left]. intros H. apply andb_true_iff in H.
  destruct H as [Hc Hs]. destruct (digit_value_isdigit c Hc) as (d & Hd).
  replace (digit_step (Some acc) c) with (Some (10 * acc + d))
    by (unfold digit_step; now rewrite Hd).
  apply IH, Hs.
Qed.

Lemma digits_not_all acc s :
  forallb isdigit s = false -> fold_left digit_step s (Some acc) = None.
Proof.
  revert acc. induction s as [|c s IH]; intros acc; [discriminate|].
  cbn [forallb fold_left]. unfold isdigit at 1.
  destruct (digit_value c) as [d|] eqn:Hd.
  - replace (digit_step (Some acc) c) with (Some (10 * acc + d))
      by (unfold digit_step; now rewrite Hd).
    simpl. apply IH.
  - replace (digit_step (Some acc) c) with (@None N)
      by (unfold digit_step; now rewrite Hd).
    intros _. apply digit_step_none.
Qed.

Lemma forallb_without_spaces g :
  forallb isdigit (replace1 32 [] g)
  = forallb (fun c => isdigit c || (c =? 32)) g.
Proof.
  unfold replace1. induction g as [|c g IH]; simpl; [reflexivity|].
  rewrite forallb_app, IH. destruct (c =? 32) eqn:E; simpl.
  - now rewrite orb_true_r.
  - now rewrite orb_false_r, andb_true_r.
Qed.

(** The groups of a match: a run that starts with a digit, and either no
    fraction or two digits. *)
Lemma PRICE_RE_search_groups s g1 g2 :
  PRICE_RE_search s = Some (g1, g2) ->
  (exists c run, g1 = c :: run /\ isdigit c = true)
  /\ (g2 = None
      \/ exists d1 d2, g2 = Some [d1; d2]
                       /\ isdigit d1 = true /\ isdigit d2 = true).
Proof.
  induction s as [|c r IH]; simpl; [discriminate|].
  destruct (isdigit c) eqn:Ec; [|exact IH].
  destruct (span price_run_char r) as [run rest]. intros [= <- <-].
  split; [eauto|]. unfold price_fraction.
  destruct rest as [|sep [|d1 [|d2 rest]]]; auto.
  destruct (((sep =? 46) || (sep =? 44)) && isdigit d1 && isdigit d2) eqn:E;
    auto.
  apply andb_true_iff in E. destruct E as [E E2].
  apply andb_true_iff in E. destruct E as [_ E1]. right. eauto.
Qed.

(** When the pattern matches, the text has a price exactly when the run
    it took holds nothing but digits and plain spaces (a no-break space
    has become one by then). *)
Lemma parse_price_of_match text g1 g2 :
  text <> [] ->
  PRICE_RE_search (replace1 NBSP (lit " ") text) = Some (g1, g2) ->
  (forallb (fun c => isdigit c || (c =? 32)) g1 = true ->
     exists v, parse_price text = Some v)
  /\ (forallb (fun c => isdigit c || (c =? 32)) g1 = false ->
        parse_price text = None).
Proof.
  intros Ht Hm. unfold parse_price. destruct text as [|t0 text]; [easy|].
  rewrite Hm. destruct (PRICE_RE_search_groups _ Hm) as ((c & run & -> & Hc) & Hg2).
  rewrite <- forallb_without_spaces. unfold float_of_parts, digits_value.
  assert (Hw : exists w ws, replace1 32 [] (c :: run) = w :: ws).
  { unfold replace1. simpl. destruct (c =? 32) eqn:E.
    - apply N.eqb_eq in E. subst c. discriminate.
    - simpl. eauto. }
  destruct Hw as (w & ws & Hw). rewrite Hw.
  split; intros Hall.
  - destruct (digits_all 0 _ Hall) as (v & ->).
    destruct Hg2 as [->|(d1 & d2 & -> & H1 & H2)].
    + eexists. reflexivity.
    + destruct (digits_all 0 [d1; d2]) as (v2 & ->); [|eauto].
      simpl. now rewrite H1, H2.
  - now rewrite (digits_not_all 0 _ Hall).
Qed.

(** C8.  The normaliser finds the three texts of the specification, and it
    loses a price whose digit run is followed by a line break: the run the
    pattern takes admits every white-space character, only the plain space
    is removed from it, and the conversion of the rest fails.  A card whose
    price is written that way is dropped from the output of the parser. *)
Theorem parse_price_line_break_lost :
  parse_price (lit "12 345,67 " ++ [RUBLE]) = Some 1234567
  /\ parse_price (lit "999") = Some 99900
  /\ parse_price [EM_DASH] = None
  /\ parse_price (lit "1 200 rub") = Some 120000
  /\ PRICE_RE_search (lit "1 200" ++ [LF] ++ lit "rub")
     = Some (lit "1 200" ++ [LF], None)
  /\ parse_price (lit "1 200" ++ [LF] ++ lit "rub") = None
  /\ map Item.price (parser_items sample_library two_line_price_page)
     = [None]
  /\ extract_products_from_html sample_library two_line_price_page = [].
Proof. repeat split; vm_compute; reflexivity. Qed.

(** ** State of the parser *)

Lemma upd_cur_open f p : card_open p -> card_open (upd_cur f p).
Proof.
  unfold card_open, upd_cur. intros H.
  destruct (cur p) eqn:E; [exact H|now rewrite E].
Qed.

Lemma with_lists_open p a b c d e f :
  card_open p -> card_open (with_lists p a b c d e f).
Proof. intros H. exact H. Qed.

Lemma set_depth_open d p : card_open p -> card_open (set_depth d p).
Proof. intros H. exact H. Qed.

Lemma finalize_item_open p : card_open p -> card_open (finalize_item p).
Proof.
  unfold card_open, finalize_item. intros H.
  destruct (cur p) eqn:E; [reflexivity|now rewrite E].
Qed.

(** No handler meets the flag [_in_item] set without a current card, so
    the assignments to [self._cur[...]] always find their dictionary. *)
Lemma handle_open L p e : card_open p -> card_open (handle L p e).
Proof.
  intros H. destruct e as [tag a|tag|d]; simpl.
  - unfold handle_starttag.
    destruct (_ && _ && _); [reflexivity|].
    destruct (in_item p) eqn:E; [|assumption].
    unfold inner_starttag.
    repeat match goal with
           | |- context [if ?b then _ else _] => destruct b
           end;
      repeat (first [ apply upd_cur_open | apply with_lists_open ]); exact H.
  - unfold handle_endtag. cbv zeta.
    repeat match goal with
           | |- context [if ?b then _ else _] => destruct b
           end;
      repeat (first [ apply finalize_item_open | apply upd_cur_open
                    | apply with_lists_open | apply set_depth_open ]);
      exact H.
  - unfold handle_data.
    repeat match goal with
           | |- context [if ?b then _ else _] => destruct b
           end; exact H.
Qed.

Lemma feed_open L html : card_open (feed L new_parser html).
Proof.
  unfold feed. generalize (feed_events L html).
  assert (H : card_open new_parser) by reflexivity. revert H.
  generalize new_parser. intros p H l. revert p H.
  induction l as [|e l IH]; intros p H; simpl; [exact H|].
  apply IH, handle_open, H.
Qed.

(** ** Output filter of the parser *)

Lemma fold_append_filter {A} (keep : A -> bool) (l acc : list A) :
  fold_left (fun out x => if keep x then out ++ [x] else out) l acc
  = acc ++ filter keep l.
Proof.
  revert acc. induction l as [|x l IH]; intros acc; simpl.
  - now rewrite app_nil_r.
  - rewrite IH. destruct (keep x); [|reflexivity].
    now rewrite <- app_assoc.
Qed.

Lemma extract_is_filter L html :
  extract_products_from_html L html = filter retained (parser_items L html).
Proof. unfold extract_products_from_html. now rewrite fold_append_filter. Qed.

Lemma retained_spec it :
  retained it = true <-> Item.name it <> [] /\ Item.price it <> None.
Proof.
  unfold retained. rewrite andb_true_iff.
  destruct (Item.name it), (Item.price it); simpl; split; intros [? ?];
    split; congruence.
Qed.

(** C9.  A card the parser found is in the output exactly when its name is
    not empty and its price is not [None]; the output keeps the order of the
    cards and drops the others without failing; the page with one complete
    card and one card without a price gives the complete card alone. *)
Theorem extract_products_keeps_named_and_priced :
  (forall L html it,
      In it (extract_products_from_html L html)
      <-> In it (parser_items L html)
          /\ Item.name it <> [] /\ Item.price it <> None)
  /\ (forall L html,
         extract_products_from_html L html
         = filter retained (parser_items L html))
  /\ List.length (parser_items sample_library sample_page) = 2%nat
  /\ extract_products_from_html sample_library sample_page = [sample_item].
Proof.
  split; [|split; [|split]].
  - intros L html it. rewrite extract_is_filter, filter_In, retained_spec.
    tauto.
  - apply extract_is_filter.
  - vm_compute. reflexivity.
  - vm_compute. reflexivity.
Qed.

(** ** Rows handed to the sink *)

Lemma make_row_name L cid cslug it :
  ProductRow.name (make_row L cid cslug it) = Item.name it.
Proof. reflexivity. Qed.

Lemma add_log_log l w : log (add_log l w) = log w ++ l.
Proof. reflexivity. Qed.

Lemma advance_log cid page w :
  log (advance cid page w)
  = log w ++ [Save (progress (advance cid page w))].
Proof. reflexivity. Qed.

(** The ways [process_page] can end, with the world each leaves. *)
Lemma process_page_cases L resp up slug page cid cslug w :
  let html := fst (async_fetch_listing resp slug page) in
  let l := snd (async_fetch_listing resp slug page) in
  let res := process_page L resp up slug page cid cslug w in
  (res = (Returned false, add_log l w)
   /\ (html = None \/ html = Some []
       \/ exists h, html = Some h /\ extract_products_from_html L h = []))
  \/ (exists h batch,
         html = Some h /\ h <> []
         /\ extract_products_from_html L h <> []
         /\ batch = map (make_row L cid cslug) (extract_products_from_html L h)
         /\ ((up = false /\ res = (Failed, add_log l w))
             \/ (up = true
                 /\ res = (Returned true,
                           advance cid page
                             {| progress := progress w;
                                checkpoint := checkpoint w;
                                products := upsert_products batch (products w);
                                log := (log w ++ l) ++ [Upsert batch] |})))).
Proof.
  cbv zeta. unfold process_page.
  destruct (async_fetch_listing resp slug page) as [html l]; simpl.
  destruct html as [[|c h]|].
  - left. split; auto.
  - destruct (extract_products_from_html L (c :: h)) as [|i its] eqn:E.
    + left. split; [reflexivity|]. right. right. exists (c :: h). auto.
    + right. exists (c :: h), (map (make_row L cid cslug) (i :: its)).
      rewrite E. repeat split; try discriminate.
      destruct up; [right|left]; split; reflexivity.
  - left. split; auto.
Qed.

Lemma fetch_loop_requests n k b resp slug page :
  Forall is_request (snd (fetch_loop n k b resp slug page)).
Proof.
  revert k b. induction n as [|n IH]; intros k b; simpl; [constructor|].
  specialize (IH (S k) (next_backoff b)).
  destruct (fetch_loop n (S k) (next_backoff b) resp slug page) as [r l].
  simpl in IH.
  destruct (resp k) as [st txt|e].
  - destruct ((st =? 200)%Z && nonempty txt); simpl.
    + repeat constructor.
    + destruct (retry_status st); simpl; repeat constructor; assumption.
  - destruct (retry_error e); simpl; repeat constructor; assumption.
Qed.

Lemma fetch_requests resp slug page :
  Forall is_request (snd (async_fetch_listing resp slug page)).
Proof. apply fetch_loop_requests. Qed.

Lemma upsert_row_keeps_keys r t k :
  In k (map fst t) -> In k (map fst (upsert_row r t)).
Proof.
  induction t as [|[k' old] t IH]; simpl; [tauto|].
  destruct (str_eqb k' (sku_of r)); simpl; tauto.
Qed.

Lemma upsert_row_key r t : In (sku_of r) (map fst (upsert_row r t)).
Proof.
  induction t as [|[k' old] t IH]; simpl; [auto|].
  unfold str_eqb. destruct (list_eq_dec N.eq_dec k' (sku_of r)); simpl; auto.
Qed.

Lemma upsert_products_keeps_keys rows t k :
  In k (map fst t) -> In k (map fst (upsert_products rows t)).
Proof.
  unfold upsert_products. revert t.
  induction rows as [|r rows IH]; intros t H; simpl; [assumption|].
  apply IH, upsert_row_keeps_keys, H.
Qed.

Lemma upsert_products_keys rows t r :
  In r rows -> In (sku_of r) (map fst (upsert_products rows t)).
Proof.
  unfold upsert_products. revert t.
  induction rows as [|r' rows IH]; intros t H; simpl; [destruct H|].
  destruct H as [->|H].
  - apply (upsert_products_keeps_keys rows), upsert_row_key.
  - now apply IH.
Qed.

(** ** Retry policy of the fetch *)

Lemma fetch_loop_unfold n k b resp slug page :
  fetch_loop (S n) k b resp slug page
  = if transient (resp k)
    then (fst (fetch_loop n (S k) (next_backoff b) resp slug page),
          Get slug page :: Sleep b
            :: snd (fetch_loop n (S k) (next_backoff b) resp slug page))
    else (body_of (resp k), [Get slug page]).
Proof.
  simpl.
  destruct (fetch_loop n (S k) (next_backoff b) resp slug page) as [r l].
  destruct (resp k) as [st txt|e]; simpl.
  - destruct ((st =? 200)%Z && nonempty txt); simpl; [reflexivity|].
    destruct (retry_status st); reflexivity.
  - destruct (retry_error e); reflexivity.
Qed.

Lemma fetch_loop_bounded n k b resp slug page :
  (requests (snd (fetch_loop n k b resp slug page)) <= n)%nat
  /\ exists m, (m <= n)%nat
       /\ sleeps (snd (fetch_loop n k b resp slug page))
          = firstn m (backoffs b n).
Proof.
  revert k b. induction n as [|n IH]; intros k b.
  - simpl. split; [lia|]. exists 0%nat. split; [lia|reflexivity].
  - rewrite fetch_loop_unfold. destruct (transient (resp k)).
    + destruct (IH (S k) (next_backoff b)) as (Hr & m & Hm & Hs).
      cbn [snd requests sleeps backoffs]. split; [lia|].
      exists (S m). split; [lia|]. cbn [firstn]. now rewrite Hs.
    + cbn [snd requests sleeps]. split; [lia|].
      exists 0%nat. split; [lia|reflexivity].
Qed.

Lemma fetch_loop_exhausted n k b resp slug page :
  (forall j, (j < n)%nat -> transient (resp (k + j)%nat) = true) ->
  fst (fetch_loop n k b resp slug page) = None
  /\ requests (snd (fetch_loop n k b resp slug page)) = n
  /\ sleeps (snd (fetch_loop n k b resp slug page)) = backoffs b n.
Proof.
  revert k b. induction n as [|n IH]; intros k b H.
  - simpl. auto.
  - rewrite fetch_loop_unfold.
    pose proof (H 0%nat ltac:(lia)) as H0. rewrite Nat.add_0_r in H0.
    rewrite H0. cbn [fst snd requests sleeps backoffs].
    destruct (IH (S k) (next_backoff b)) as (E1 & E2 & E3).
    + intros j Hj. replace (S k + j)%nat with (k + S j)%nat by lia.
      apply H. lia.
    + rewrite E1, E2, E3. auto.
Qed.





(** ** Persistence of the checkpoint *)


Lemma save_progress_result p before :
  save_progress p before = Some (json_dumps p).
Proof. reflexivity. Qed.



(** ** Pages and the cursor *)

Lemma fetch_loop_body n k b resp slug page h :
  fst (fetch_loop n k b resp slug page) = Some h -> h <> [].
Proof.
  revert k b. induction n as [|n IH]; intros k b; [discriminate|].
  rewrite fetch_loop_unfold. destruct (transient (resp k)); simpl.
  - apply IH.
  - destruct (resp k) as [st txt|e]; simpl; [|discriminate].
    destruct ((st =? 200)%Z); simpl; [|discriminate].
    destruct txt; simpl; [discriminate|]. intros [= <-]. discriminate.
Qed.

Lemma fetch_body_not_empty resp slug page h :
  fst (async_fetch_listing resp slug page) = Some h -> h <> [].
Proof. apply fetch_loop_body. Qed.

Lemma str_eqb_refl k : str_eqb k k = true.
Proof. unfold str_eqb. destruct (list_eq_dec N.eq_dec k k); congruence. Qed.

Lemma str_eqb_eq a b : str_eqb a b = true <-> a = b.
Proof.
  unfold str_eqb. destruct (list_eq_dec N.eq_dec a b); split; congruence.
Qed.

Lemma dict_get_set k v d : dict_get k (dict_set k v d) = Some v.
Proof.
  induction d as [|[k' v'] d IH]; simpl.
  - now rewrite str_eqb_refl.
  - destruct (str_eqb k' k) eqn:E; simpl.
    + now rewrite str_eqb_refl.
    + now rewrite E.
Qed.

Lemma dict_get_del k d : dict_get k (dict_del k d) = None.
Proof.
  unfold dict_del. induction d as [|[k' v'] d IH]; simpl; [reflexivity|].
  destruct (str_eqb k' k) eqn:E; simpl; [assumption|]. now rewrite E.
Qed.

(** C3, as the code has it.  When the fetch of a page succeeds and the
    page yields at least one retained card, the batch is written and the
    cursor of the category is then set to the page number plus one and
    saved; when the fetched page yields no retained card (no card at all,
    or none with both a name and a price) [process_page] returns [False]
    and leaves the checkpoint and its file as they were. *)
Theorem process_page_advances_only_with_items
    L resp up slug page cid cslug w h :
  fst (async_fetch_listing resp slug page) = Some h ->
  let res := process_page L resp up slug page cid cslug w in
  (extract_products_from_html L h = [] ->
     fst res = Returned false
     /\ progress (snd res) = progress w
     /\ checkpoint (snd res) = checkpoint w
     /\ products (snd res) = products w)
  /\ (extract_products_from_html L h <> [] -> up = true ->
        fst res = Returned true
        /\ dict_get (str_of_Z cid) (category_pages (progress (snd res)))
           = Some (page + 1)%Z
        /\ checkpoint (snd res) = Some (json_dumps (progress (snd res))))
  /\ (extract_products_from_html L h <> [] -> up = false ->
        fst res = Failed
        /\ progress (snd res) = progress w
        /\ checkpoint (snd res) = checkpoint w).
Proof.
  intros Hf res. subst res.
  destruct (process_page_cases L resp up slug page cid cslug w)
    as [[E Hc]|(h' & b & Eh & Hne & Hit & Eb & Hc)].
  - rewrite E. simpl. rewrite Hf in Hc.
    destruct Hc as [Hc|[Hc|(h' & Eh & Hc)]].
    + discriminate.
    + injection Hc as ->. now destruct (fetch_body_not_empty _ _ _ Hf).
    + injection Eh as <-. repeat split; auto; contradiction.
  - rewrite Hf in Eh. injection Eh as <-.
    repeat split; try (intros; contradiction);
      destruct Hc as [[-> ->]|[-> ->]]; try discriminate; try reflexivity.
    simpl. apply dict_get_set.
Qed.

Lemma process_page_advances_only_with_items_witness :
  let res := process_page sample_library (always (Response 200 sample_page))
               true (lit "pipes") 3 42 (lit "pipes") new_world in
  fst res = Returned true
  /\ dict_get (str_of_Z 42) (category_pages (progress (snd res))) = Some 4%Z
  /\ checkpoint (snd res) = Some (json_dumps (progress (snd res))).
Proof.
  apply (@process_page_advances_only_with_items sample_library
           (always (Response 200 sample_page)) true (lit "pipes") 3%Z 42%Z
           (lit "pipes") new_world sample_page).
  - reflexivity.
  - vm_compute. discriminate.
  - reflexivity.
Defined.

(** C3 as stated fails: page 3 is fetched with status 200, once without
    any card and once with a single card that has no price; in both runs
    [process_page] returns [False] and category 42 gets no cursor. *)
Lemma fetched_page_without_items_keeps_cursor :
  (fst (async_fetch_listing (always (Response 200 empty_page))
                            (lit "pipes") 3) = Some empty_page
   /\ fst (process_page sample_library (always (Response 200 empty_page))
                        true (lit "pipes") 3 42 (lit "pipes") new_world)
      = Returned false
   /\ dict_get (str_of_Z 42)
        (category_pages (progress (snd
           (process_page sample_library (always (Response 200 empty_page))
                         true (lit "pipes") 3 42 (lit "pipes") new_world))))
      = None)
  /\ (List.length (parser_items sample_library priceless_page) = 1%nat
      /\ fst (process_page sample_library
                (always (Response 200 priceless_page))
                true (lit "pipes") 3 42 (lit "pipes") new_world)
         = Returned false
      /\ dict_get (str_of_Z 42)
           (category_pages (progress (snd
              (process_page sample_library
                 (always (Response 200 priceless_page))
                 true (lit "pipes") 3 42 (lit "pipes") new_world))))
         = None).
Proof. repeat split; vm_compute; reflexivity. Qed.

(** ** The cursor during a category run *)

Lemma saves_app a b : saves (a ++ b) = saves a ++ saves b.
Proof.
  induction a as [|e a IH]; simpl; [reflexivity|].
  destruct e; simpl; now rewrite IH.
Qed.

Lemma saved_cursors_app cid a b :
  saved_cursors cid (a ++ b) = saved_cursors cid a ++ saved_cursors cid b.
Proof. unfold saved_cursors. now rewrite saves_app, map_app. Qed.

Lemma saves_requests l : Forall is_request l -> saves l = [].
Proof.
  induction 1 as [|e l He _ IH]; simpl; [reflexivity|].
  destruct e; simpl in *; tauto.
Qed.

(** What one page task adds to the log and does to the checkpoint. *)
Lemma process_page_effect L env slug p cid w :
  let res := process_page L (page_resp env p) (db_up env p) slug p cid slug w in
  let l := snd (async_fetch_listing (page_resp env p) slug p) in
  (advances L env slug p = false
   /\ log (snd res) = log w ++ l
   /\ progress (snd res) = progress w
   /\ checkpoint (snd res) = checkpoint w)
  \/ (advances L env slug p = true
      /\ (exists b, log (snd res)
                    = log w ++ l ++ [Upsert b; Save (progress (snd res))])
      /\ progress (snd res)
         = {| completed_categories := completed_categories (progress w);
              category_pages :=
                dict_set (str_of_Z cid) (p + 1)%Z
                         (category_pages (progress w)) |}).
Proof.
  cbv zeta. unfold advances.
  destruct (process_page_cases L (page_resp env p) (db_up env p)
                               slug p cid slug w)
    as [[E Hc]|(h & b & Eh & Hne & Hit & Eb & Hc)].
  - left. rewrite E. simpl.
    destruct Hc as [Hc|[Hc|(h & Hc & Hx)]].
    + rewrite Hc. auto.
    + now destruct (fetch_body_not_empty _ _ _ Hc).
    + rewrite Hc, Hx. auto.
  - rewrite Eh.
    destruct (extract_products_from_html L h) as [|i its] eqn:Ex;
      [contradiction|].
    destruct Hc as [[-> ->]|[-> ->]].
    + left. simpl. auto.
    + right. simpl. split; [reflexivity|]. split; [|reflexivity].
      exists b. now rewrite <- !app_assoc.
Qed.

Lemma run_pages_cons L env cid slug p order w :
  run_pages L env cid slug (p :: order) w
  = run_pages L env cid slug order
      (snd (process_page L (page_resp env p) (db_up env p)
                         slug p cid slug w)).
Proof. reflexivity. Qed.

Lemma run_pages_cursors L env cid slug order w :
  saved_cursors cid (log (run_pages L env cid slug order w))
  = saved_cursors cid (log w)
    ++ map (fun p => Some (p + 1)%Z) (filter (advances L env slug) order).
Proof.
  revert w. induction order as [|p order IH]; intros w.
  - simpl. now rewrite app_nil_r.
  - rewrite run_pages_cons, IH. cbn [filter].
    pose proof (saves_requests (fetch_requests (page_resp env p) slug p))
      as Hs.
    destruct (process_page_effect L env slug p cid w)
      as [(-> & El & _)|(-> & (b & El) & Ep)]; rewrite El.
    + rewrite saved_cursors_app. unfold saved_cursors at 2. rewrite Hs.
      simpl. now rewrite app_nil_r.
    + rewrite !saved_cursors_app. unfold saved_cursors at 2. rewrite Hs.
      cbn [map app]. unfold saved_cursors at 2. cbn [saves map].
      rewrite Ep. cbn [category_pages]. rewrite dict_get_set.
      now rewrite <- app_assoc.
Qed.

Lemma fetch_loop_first_request n k b resp slug page :
  In (Get slug page) (snd (fetch_loop (S n) k b resp slug page)).
Proof.
  rewrite fetch_loop_unfold. destruct (transient (resp k)); left; reflexivity.
Qed.

Lemma fetch_loop_same_page n k b resp slug page s q :
  In (Get s q) (snd (fetch_loop n k b resp slug page)) ->
  s = slug /\ q = page.
Proof.
  revert k b. induction n as [|n IH]; intros k b; [intros []|].
  rewrite fetch_loop_unfold. destruct (transient (resp k)); simpl.
  - intros [[= <- <-]|[[=]|H]]; auto. eapply IH, H.
  - intros [[= <- <-]|[]]; auto.
Qed.

(** What the page tasks add to the log: requests for the pages of [order]
    and only for them, each page being requested. *)
Lemma run_pages_requests L env cid slug order w :
  exists added,
    log (run_pages L env cid slug order w) = log w ++ added
    /\ (forall s q, In (Get s q) added -> s = slug /\ In q order)
    /\ (forall q, In q order -> In (Get slug q) added).
Proof.
  revert w. induction order as [|p order IH]; intros w.
  - exists []. simpl. rewrite app_nil_r. repeat split; tauto.
  - rewrite run_pages_cons.
    destruct (IH (snd (process_page L (page_resp env p) (db_up env p)
                                    slug p cid slug w)))
      as (added & El & Honly & Hall).
    set (l := snd (async_fetch_listing (page_resp env p) slug p)).
    assert (Hl : exists tail,
               log (snd (process_page L (page_resp env p) (db_up env p)
                                      slug p cid slug w))
               = log w ++ l ++ tail
               /\ forall s q, ~ In (Get s q) tail).
    { destruct (process_page_effect L env slug p cid w)
        as [(_ & E & _)|(_ & (b & E) & _)].
      - exists []. rewrite app_nil_r. split; [exact E|]. intros s q [].
      - eexists. split; [exact E|]. intros s q [H|[H|[]]]; discriminate. }
    destruct Hl as (tail & E & Htail).
    exists (l ++ tail ++ added). rewrite El, E, <- !app_assoc.
    split; [reflexivity|]. split.
    + intros s q H. apply in_app_or in H. destruct H as [H|H].
      * apply fetch_loop_same_page in H. destruct H as [-> ->].
        split; [reflexivity|left; reflexivity].
      * apply in_app_or in H. destruct H as [H|H].
        -- destruct (Htail _ _ H).
        -- destruct (Honly _ _ H). split; [assumption|right; assumption].
    + intros q [<-|H].
      * apply in_or_app. left. apply fetch_loop_first_request.
      * apply in_or_app. right. apply in_or_app. right. auto.
Qed.

Lemma total_pages_sizing resp slug :
  snd (async_get_total_pages resp slug)
  = snd (async_fetch_listing resp slug 1).
Proof.
  unfold async_get_total_pages.
  now destruct (async_fetch_listing resp slug 1).
Qed.

Lemma process_category_async_unfold L env cid slug w :
  process_category_async L env cid slug w
  = let total := fst (async_get_total_pages (size_resp env) slug) in
    let w1 := add_log (snd (async_fetch_listing (size_resp env) slug 1)) w in
    if (total <=? 0)%Z then w1
    else complete cid
           (run_pages L env cid slug
              (completion_order env
                 (range (start_page_of cid (progress w)) (total + 1)))
              w1).
Proof.
  unfold process_category_async. rewrite <- total_pages_sizing.
  now destruct (async_get_total_pages (size_resp env) slug).
Qed.

Lemma sorted_filter_succ (keep : Z -> bool) (order : list Z) :
  StronglySorted Z.le order ->
  StronglySorted Z.le (map (fun p => (p + 1)%Z) (filter keep order)).
Proof.
  induction 1 as [|p order Hs IH Hall]; simpl; [constructor|].
  destruct (keep p); [|assumption]. simpl. constructor; [assumption|].
  rewrite Forall_forall in *. intros x Hx. apply in_map_iff in Hx.
  destruct Hx as (q & <- & Hq). apply filter_In in Hq.
  specialize (Hall q (proj1 Hq)). lia.
Qed.

(** C1, as the code has it.  Whatever the order in which the page tasks of
    a category finish, each task that fetched its page, found a retained
    card and wrote its batch saves the checkpoint with the cursor of the
    category set to its own page number plus one, so the saved cursor is
    the page that finished last plus one; the run ends by saving the
    checkpoint without a cursor for the category.  The saved cursors do not
    decrease when the tasks finish in increasing page order. *)
Theorem cursor_is_last_finished_page_plus_one :
  forall L env cid slug w,
    let total := fst (async_get_total_pages (size_resp env) slug) in
    let order :=
      completion_order env
        (range (start_page_of cid (progress w)) (total + 1)) in
    let done := filter (advances L env slug) order in
    saved_cursors cid (log (process_category_async L env cid slug w))
    = saved_cursors cid (log w)
      ++ (if (total <=? 0)%Z then []
          else map (fun p => Some (p + 1)%Z) done ++ [None])
    /\ (StronglySorted Z.le order ->
        StronglySorted Z.le (map (fun p => (p + 1)%Z) done)).
Proof.
  intros L env cid slug w total order done. split.
  - rewrite process_category_async_unfold. cbv zeta. fold total.
    pose proof (saves_requests (fetch_requests (size_resp env) slug 1)) as Hs.
    destruct (total <=? 0)%Z.
    + rewrite add_log_log, saved_cursors_app. unfold saved_cursors at 2.
      now rewrite Hs.
    + unfold complete. cbn [log progress].
      rewrite saved_cursors_app, run_pages_cursors, add_log_log.
      rewrite saved_cursors_app. unfold saved_cursors at 2. rewrite Hs.
      cbn [map]. rewrite app_nil_r. fold order. fold done.
      unfold saved_cursors at 2. cbn [saves map category_pages].
      rewrite dict_get_del. now rewrite <- app_assoc.
  - apply sorted_filter_succ.
Qed.

(** C1 as stated fails: with pages 1 to 3 scheduled and page 3 finishing
    first, the cursor 4 is saved while pages 1 and 2 are unfinished, and the
    next save stores 2, below the value saved before. *)
Lemma cursor_regresses_out_of_order :
  range (start_page_of 42 (progress new_world)) (3 + 1) = [1; 2; 3]%Z
  /\ saved_cursors 42
       (log (process_category_async sample_library (three_pages [3; 1; 2]%Z)
                                    42 (lit "pipes") new_world))
     = [Some 4; Some 2; Some 3; None]%Z
  /\ ~ never_regresses
        (saved_cursors 42
           (log (process_category_async sample_library
                   (three_pages [3; 1; 2]%Z) 42 (lit "pipes") new_world))).
Proof.
  split; [vm_compute; reflexivity|]. split; [vm_compute; reflexivity|].
  intros H.
  specialize (H 0%nat 1%nat 4%Z 2%Z ltac:(lia)).
  assert (E : saved_cursors 42
                (log (process_category_async sample_library
                        (three_pages [3; 1; 2]%Z) 42 (lit "pipes") new_world))
              = [Some 4; Some 2; Some 3; None]%Z)
    by (vm_compute; reflexivity).
  rewrite E in H. specialize (H eq_refl eq_refl). lia.
Qed.

(** ** Resuming a category *)

Lemma range_In a b q : In q (range a b) <-> (a <= q < b)%Z.
Proof.
  unfold range. rewrite in_map_iff. split.
  - intros (i & <- & Hi). apply in_seq in Hi. lia.
  - intros H. exists (Z.to_nat (q - a)). split; [lia|].
    apply in_seq. lia.
Qed.

Lemma start_page_of_cursor cid p N :
  dict_get (str_of_Z cid) (category_pages p) = Some N ->
  start_page_of cid p = N.
Proof. unfold start_page_of. now intros ->. Qed.

(** C4, as the code has it.  When the loaded checkpoint maps a category to
    the next page [N], a run of the category first requests page 1, to
    learn the number of pages, and then requests the pages from [N] to the
    last one, each of them and no other: no page below [N] is processed. *)
Theorem resume_requests_start_at_cursor L env cid slug w N :
  dict_get (str_of_Z cid) (category_pages (progress w)) = Some N ->
  (forall l, Permutation (completion_order env l) l) ->
  let total := fst (async_get_total_pages (size_resp env) slug) in
  let sizing := snd (async_fetch_listing (size_resp env) slug 1) in
  exists pages closing,
    log (process_category_async L env cid slug w)
    = log w ++ sizing ++ pages ++ closing
    /\ hd_error sizing = Some (Get slug 1)
    /\ (forall s q, In (Get s q) sizing -> s = slug /\ q = 1%Z)
    /\ (forall s q, In (Get s q) pages ->
          s = slug /\ (N <= q <= total)%Z)
    /\ (forall q, (0 < total)%Z -> (N <= q <= total)%Z ->
          In (Get slug q) pages)
    /\ (forall s q, ~ In (Get s q) closing).
Proof.
  intros HN Hperm total sizing.
  assert (Hhd : hd_error sizing = Some (Get slug 1)).
  { subst sizing. unfold async_fetch_listing. rewrite fetch_loop_unfold.
    now destruct (transient (size_resp env 0%nat)). }
  assert (Hsz : forall s q, In (Get s q) sizing -> s = slug /\ q = 1%Z).
  { intros s q. apply fetch_loop_same_page. }
  rewrite process_category_async_unfold. cbv zeta. fold total. fold sizing.
  rewrite (start_page_of_cursor _ _ HN).
  destruct (total <=? 0)%Z eqn:Et.
  - exists [], []. rewrite add_log_log, !app_nil_r. apply Z.leb_le in Et.
    split; [reflexivity|]. split; [exact Hhd|]. split; [exact Hsz|].
    split; [intros s q []|]. split; [intros q Ht; lia|intros s q []].
  - apply Z.leb_gt in Et.
    set (order := completion_order env (range N (total + 1))).
    destruct (run_pages_requests L env cid slug order (add_log sizing w))
      as (added & El & Honly & Hall).
    exists added, [Save (progress (complete cid
                     (run_pages L env cid slug order (add_log sizing w))))].
    unfold complete at 1. cbn [log]. rewrite El, add_log_log.
    rewrite <- !app_assoc.
    split; [reflexivity|]. split; [exact Hhd|]. split; [exact Hsz|].
    split; [|split].
    + intros s q H. apply Honly in H. destruct H as [-> H].
      apply (Permutation_in _ (Hperm _)) in H. apply range_In in H.
      split; [reflexivity|lia].
    + intros q _ Hq. apply Hall.
      apply (Permutation_in _ (Permutation_sym (Hperm _))).
      apply range_In. lia.
    + intros s q [H|[]]. discriminate.
Qed.

Lemma resume_requests_start_at_cursor_witness :
  exists pages closing,
    log (process_category_async sample_library six_pages 42 (lit "pipes")
                                resumed_world)
    = log resumed_world
      ++ snd (async_fetch_listing (size_resp six_pages) (lit "pipes") 1)
      ++ pages ++ closing
    /\ hd_error (snd (async_fetch_listing (size_resp six_pages)
                                          (lit "pipes") 1))
       = Some (Get (lit "pipes") 1)
    /\ (forall s q,
           In (Get s q) (snd (async_fetch_listing (size_resp six_pages)
                                                  (lit "pipes") 1)) ->
           s = lit "pipes" /\ q = 1%Z)
    /\ (forall s q, In (Get s q) pages ->
          s = lit "pipes"
          /\ (5 <= q <= fst (async_get_total_pages (size_resp six_pages)
                                                   (lit "pipes")))%Z)
    /\ (forall q,
           (0 < fst (async_get_total_pages (size_resp six_pages)
                                           (lit "pipes")))%Z ->
           (5 <= q <= fst (async_get_total_pages (size_resp six_pages)
                                                 (lit "pipes")))%Z ->
           In (Get (lit "pipes") q) pages)
    /\ (forall s q, ~ In (Get s q) closing).
Proof.
  apply (@resume_requests_start_at_cursor sample_library six_pages 42%Z
           (lit "pipes") resumed_world 5%Z).
  - reflexivity.
  - intros l. simpl. apply Permutation_sym, Permutation_rev.
Defined.

(** C4 as stated fails: with the cursor of category 42 at page 5, the first
    request of the run is for page 1. *)
Lemma resume_requests_page_one :
  start_page_of 42 (progress resumed_world) = 5%Z
  /\ hd_error (log (process_category_async sample_library six_pages 42
                                           (lit "pipes") resumed_world))
     = Some (Get (lit "pipes") 1)
  /\ map (fun e => match e with Get _ q => q | _ => 0%Z end)
         (filter (fun e => match e with Get _ _ => true | _ => false end)
                 (log (process_category_async sample_library six_pages 42
                                              (lit "pipes") resumed_world)))
     = [1; 6; 5]%Z.
Proof. repeat split; vm_compute; reflexivity. Qed.

(** ** Failed pages and dead categories *)

Lemma insert_sorted_in x l : In x (insert_sorted x l).
Proof.
  induction l as [|y l IH]; simpl; [auto|].
  destruct (x <? y)%Z; [left; reflexivity|].
  destruct (x =? y)%Z eqn:E; [|right; assumption].
  apply Z.eqb_eq in E. left. congruence.
Qed.

Lemma complete_marks cid w :
  In cid (completed_categories (progress (complete cid w)))
  /\ dict_get (str_of_Z cid) (category_pages (progress (complete cid w)))
     = None
  /\ checkpoint (complete cid w)
     = Some (json_dumps (progress (complete cid w))).
Proof.
  unfold complete. cbn [progress checkpoint completed_categories
                        category_pages].
  split; [|split].
  - simpl. apply insert_sorted_in.
  - apply dict_get_del.
  - reflexivity.
Qed.

(** C5, as the code has it.  When the fetch of a scheduled page meets a
    retried condition at each of its four attempts, the run of the
    category goes on: every scheduled page is requested, the failed page
    leaves the checkpoint as it was, and once all page tasks have ended
    the category is recorded as completed, its cursor is removed and the
    checkpoint is saved. *)
Theorem exhausted_page_does_not_stop_category L env cid slug w p :
  let total := fst (async_get_total_pages (size_resp env) slug) in
  let tasks := range (start_page_of cid (progress w)) (total + 1) in
  let w' := process_category_async L env cid slug w in
  (0 < total)%Z ->
  (forall l, Permutation (completion_order env l) l) ->
  In p tasks ->
  (forall j, (j < 4)%nat -> transient (page_resp env p j) = true) ->
  (forall q, In q tasks -> In (Get slug q) (log w'))
  /\ (forall w0,
         process_page L (page_resp env p) (db_up env p) slug p cid slug w0
         = (Returned false,
            add_log (snd (async_fetch_listing (page_resp env p) slug p)) w0))
  /\ In cid (completed_categories (progress w'))
  /\ dict_get (str_of_Z cid) (category_pages (progress w')) = None
  /\ checkpoint w' = Some (json_dumps (progress w')).
Proof.
  intros total tasks w' Ht Hperm Hp Hfail. subst w'.
  rewrite process_category_async_unfold. cbv zeta. fold total. fold tasks.
  apply Z.leb_gt in Ht. rewrite Ht.
  split; [|split].
  - intros q Hq. unfold complete. cbn [log].
    destruct (run_pages_requests L env cid slug (completion_order env tasks)
                (add_log (snd (async_fetch_listing (size_resp env) slug 1)) w))
      as (added & El & _ & Hall).
    rewrite El. apply in_or_app. left. apply in_or_app. right.
    apply Hall. apply (Permutation_in _ (Permutation_sym (Hperm _))), Hq.
  - intros w0.
    destruct (@fetch_loop_exhausted 4 0 ASYNC_BASE_DELAY (page_resp env p)
                slug p Hfail) as (E & _).
    destruct (process_page_cases L (page_resp env p) (db_up env p)
                slug p cid slug w0)
      as [[E' _]|(h & b & Eh & _)]; [exact E'|].
    unfold async_fetch_listing in Eh. congruence.
  - apply complete_marks.
Qed.

Lemma exhausted_page_does_not_stop_category_witness :
  (forall q,
      In q (range (start_page_of 42 (progress new_world))
                  (fst (async_get_total_pages (size_resp first_page_down)
                                              (lit "pipes")) + 1)) ->
      In (Get (lit "pipes") q)
         (log (process_category_async sample_library first_page_down 42
                                      (lit "pipes") new_world)))
  /\ (forall w0,
         process_page sample_library (page_resp first_page_down 1)
                      (db_up first_page_down 1) (lit "pipes") 1 42
                      (lit "pipes") w0
         = (Returned false,
            add_log (snd (async_fetch_listing (page_resp first_page_down 1)
                                              (lit "pipes") 1)) w0))
  /\ In 42%Z (completed_categories
                (progress (process_category_async sample_library
                             first_page_down 42 (lit "pipes") new_world)))
  /\ dict_get (str_of_Z 42)
       (category_pages
          (progress (process_category_async sample_library first_page_down
                       42 (lit "pipes") new_world))) = None
  /\ checkpoint (process_category_async sample_library first_page_down 42
                   (lit "pipes") new_world)
     = Some (json_dumps
               (progress (process_category_async sample_library
                            first_page_down 42 (lit "pipes") new_world))).
Proof.
  apply (@exhausted_page_does_not_stop_category sample_library
           first_page_down 42%Z (lit "pipes") new_world 1%Z).
  - reflexivity.
  - intros l. apply Permutation_refl.
  - vm_compute. left. reflexivity.
  - intros j _. reflexivity.
Defined.

(** C5 as stated fails: page 1 of category 42 fails at all four attempts
    and page 2 succeeds; the cursor 3 is saved, past page 1, and the run
    ends with the category recorded as completed and without a cursor, so
    that a later run skips the category. *)
Lemma failed_page_category_marked_completed :
  fst (async_fetch_listing (page_resp first_page_down 1) (lit "pipes") 1)
  = None
  /\ saved_cursors 42
       (log (process_category_async sample_library first_page_down 42
                                    (lit "pipes") new_world))
     = [Some 3%Z; None]
  /\ progress (process_category_async sample_library first_page_down 42
                                      (lit "pipes") new_world)
     = {| completed_categories := [42%Z]; category_pages := [] |}.
Proof. repeat split; vm_compute; reflexivity. Qed.

Lemma get_total_pages_no_marker h :
  h <> [] -> page_markers h = [] -> get_total_pages h = 1%Z.
Proof.
  intros Hh Hm. unfold get_total_pages. rewrite Hm.
  destruct h; [contradiction|reflexivity].
Qed.

(** C6, as the code has it.  When page 1 of a category cannot be fetched
    the category is taken to have 0 pages and the run returns without
    error, leaving the checkpoint, its file and the table as they were:
    the category is not marked complete.  When page 1 is fetched and holds
    no pagination marker the category is taken to have one page; the page
    tasks from the cursor to page 1 are run and the category is then
    marked complete, without a cursor, and the checkpoint is saved. *)
Theorem unfetched_first_page_leaves_category_pending :
  forall L env cid slug w,
    let total := fst (async_get_total_pages (size_resp env) slug) in
    let w' := process_category_async L env cid slug w in
    (fst (async_fetch_listing (size_resp env) slug 1) = None ->
       total = 0%Z
       /\ w' = add_log (snd (async_fetch_listing (size_resp env) slug 1)) w
       /\ progress w' = progress w
       /\ checkpoint w' = checkpoint w
       /\ products w' = products w)
    /\ (forall h,
           fst (async_fetch_listing (size_resp env) slug 1) = Some h ->
           page_markers h = [] ->
           total = 1%Z
           /\ In cid (completed_categories (progress w'))
           /\ dict_get (str_of_Z cid) (category_pages (progress w')) = None
           /\ checkpoint w' = Some (json_dumps (progress w'))).
Proof.
  intros L env cid slug w total w'.
  assert (Etot : total
                 = match fst (async_fetch_listing (size_resp env) slug 1) with
                   | Some h => if nonempty h then get_total_pages h else 0%Z
                   | None => 0%Z
                   end).
  { subst total. unfold async_get_total_pages.
    now destruct (async_fetch_listing (size_resp env) slug 1). }
  subst w'. rewrite process_category_async_unfold. cbv zeta. fold total.
  split.
  - intros Hf. rewrite Hf in Etot. rewrite Etot. simpl. auto.
  - intros h Hf Hm. rewrite Hf in Etot.
    pose proof (fetch_body_not_empty _ _ _ Hf) as Hh.
    destruct h as [|c h]; [contradiction|]. simpl nonempty in Etot.
    rewrite (get_total_pages_no_marker Hh Hm) in Etot. rewrite Etot.
    split; [reflexivity|]. simpl Z.leb. cbv iota. apply complete_marks.
Qed.

(** C6 as stated fails: a category whose page 1 cannot be fetched is not
    marked complete and its checkpoint file is never written; a category
    whose page 1 has no marker and no card is taken to have one page, not
    zero, and page 1 is requested a second time. *)
Lemma dead_category_not_marked_complete :
  (fst (async_get_total_pages (size_resp dead_category) (lit "pipes")) = 0%Z
   /\ completed_categories
        (progress (process_category_async sample_library dead_category 42
                                          (lit "pipes") new_world)) = []
   /\ checkpoint (process_category_async sample_library dead_category 42
                                         (lit "pipes") new_world) = None)
  /\ (fst (async_get_total_pages (size_resp empty_category) (lit "pipes"))
      = 1%Z
      /\ requests (log (process_category_async sample_library empty_category
                          42 (lit "pipes") new_world)) = 2%nat).
Proof. repeat split; vm_compute; reflexivity. Qed.

(** ** The key of the rows written *)

(** What a page task adds to the batches sent and to the table. *)
Lemma process_page_upserts L resp up slug page cid cslug w :
  let w' := snd (process_page L resp up slug page cid cslug w) in
  (forall k, In k (map fst (products w)) -> In k (map fst (products w')))
  /\ forall batch,
       In (Upsert batch) (log w') ->
       In (Upsert batch) (log w)
       \/ (exists h,
              fst (async_fetch_listing resp slug page) = Some h
              /\ batch = map (make_row L cid cslug)
                             (extract_products_from_html L h)
              /\ forall r, In r batch -> In (sku_of r) (map fst (products w'))).
Proof.
  cbv zeta.
  pose proof (fetch_requests resp slug page) as Hreq.
  rewrite Forall_forall in Hreq.
  destruct (process_page_cases L resp up slug page cid cslug w)
    as [[E _]|(h & b & Eh & _ & _ & Eb & [[_ E]|[_ E]])]; rewrite E; simpl.
  - split; [auto|]. intros batch Hin. left.
    apply in_app_or in Hin. destruct Hin as [Hin|Hin]; [assumption|].
    destruct (Hreq _ Hin).
  - split; [auto|]. intros batch Hin. left.
    apply in_app_or in Hin. destruct Hin as [Hin|Hin]; [assumption|].
    destruct (Hreq _ Hin).
  - split; [intros k; apply upsert_products_keeps_keys|].
    intros batch Hin.
    repeat (apply in_app_or in Hin; destruct Hin as [Hin|Hin]); auto.
    + destruct (Hreq _ Hin).
    + destruct Hin as [Hin|[]]. injection Hin as <-. right.
      exists h. split; [assumption|]. split; [assumption|].
      intros r Hr. now apply upsert_products_keys.
    + destruct Hin as [Hin|[]]. discriminate.
Qed.

Lemma run_pages_upserts L env cid slug order w :
  let w' := run_pages L env cid slug order w in
  (forall k, In k (map fst (products w)) -> In k (map fst (products w')))
  /\ forall batch,
       In (Upsert batch) (log w') ->
       In (Upsert batch) (log w)
       \/ (exists p h,
              In p order
              /\ fst (async_fetch_listing (page_resp env p) slug p) = Some h
              /\ batch = map (make_row L cid slug)
                             (extract_products_from_html L h)
              /\ forall r, In r batch -> In (sku_of r) (map fst (products w'))).
Proof.
  cbv zeta. revert w. induction order as [|p order IH]; intros w.
  - simpl. auto.
  - rewrite run_pages_cons.
    set (w1 := snd (process_page L (page_resp env p) (db_up env p)
                                 slug p cid slug w)).
    destruct (IH w1) as (Hk & Hb).
    destruct (process_page_upserts L (page_resp env p) (db_up env p)
                                   slug p cid slug w) as (Hk1 & Hb1).
    fold w1 in Hk1, Hb1. split; [auto|].
    intros batch Hin. destruct (Hb _ Hin) as [Hin1|(q & h & Hq & Hf & Eb & Hkeys)].
    + destruct (Hb1 _ Hin1) as [Hin0|(h & Hf & Eb & Hkeys)]; [auto|].
      right. exists p, h. repeat split; auto. left; reflexivity.
    + right. exists q, h. repeat split; auto. right; assumption.
Qed.

Lemma run_pages_products L env cid slug order w :
  products (complete cid (run_pages L env cid slug order w))
  = products (run_pages L env cid slug order w).
Proof. reflexivity. Qed.

(** C10.  Every row of a batch that a category run hands to
    [upsert_products] is stored under a key [sku] that is the row's name,
    which is the name of a card the parser found in a fetched page of the
    category and is not empty; the table holds that key when the run
    ends. *)
Theorem sink_key_is_nonempty_name L env cid slug w batch r :
  In (Upsert batch) (log (process_category_async L env cid slug w)) ->
  ~ In (Upsert batch) (log w) ->
  In r batch ->
  sku_of r = ProductRow.name r
  /\ ProductRow.name r <> []
  /\ (exists p h it,
         fst (async_fetch_listing (page_resp env p) slug p) = Some h
         /\ In it (parser_items L h)
         /\ ProductRow.name r = Item.name it)
  /\ In (ProductRow.name r)
        (map fst (products (process_category_async L env cid slug w))).
Proof.
  intros Hin Hold Hr. rewrite process_category_async_unfold in Hin |- *.
  cbv zeta in Hin |- *.
  pose proof (fetch_requests (size_resp env) slug 1) as Hreq.
  rewrite Forall_forall in Hreq.
  assert (Hsz : ~ In (Upsert batch)
                  (log (add_log (snd (async_fetch_listing (size_resp env)
                                                          slug 1)) w))).
  { rewrite add_log_log. intros H. apply in_app_or in H.
    destruct H as [H|H]; [contradiction|]. destruct (Hreq _ H). }
  destruct (fst (async_get_total_pages (size_resp env) slug) <=? 0)%Z;
    [contradiction|].
  unfold complete at 1 in Hin. cbn [log] in Hin.
  apply in_app_or in Hin. destruct Hin as [Hin|[Hin|[]]]; [|discriminate].
  rewrite run_pages_products.
  match type of Hin with
  | In _ (log (run_pages _ _ _ _ ?o ?w1)) =>
      destruct (run_pages_upserts L env cid slug o w1) as (_ & Hb)
  end.
  destruct (Hb _ Hin) as [H|(p & h & _ & Hf & Eb & Hkeys)]; [contradiction|].
  pose proof Hr as Hr'. rewrite Eb in Hr'. apply in_map_iff in Hr'.
  destruct Hr' as (it & <- & Hit).
  rewrite extract_is_filter, filter_In, retained_spec in Hit.
  destruct Hit as (Hit & Hname & _).
  split; [reflexivity|]. split; [exact Hname|]. split.
  - exists p, h, it. auto.
  - apply (Hkeys _ Hr).
Qed.

Lemma sink_key_is_nonempty_name_witness :
  sku_of sample_row = ProductRow.name sample_row
  /\ ProductRow.name sample_row <> []
  /\ (exists p h it,
         fst (async_fetch_listing (page_resp (three_pages [3; 1; 2]%Z) p)
                                  (lit "pipes") p) = Some h
         /\ In it (parser_items sample_library h)
         /\ ProductRow.name sample_row = Item.name it)
  /\ In (ProductRow.name sample_row)
        (map fst (products
           (process_category_async sample_library (three_pages [3; 1; 2]%Z)
                                   42 (lit "pipes") new_world))).
Proof.
  apply (@sink_key_is_nonempty_name sample_library (three_pages [3; 1; 2]%Z)
           42%Z (lit "pipes") new_world [sample_row]).
  - vm_compute. do 2 right. left. reflexivity.
  - simpl. tauto.
  - left. reflexivity.
Defined.

(** ** More on prices, page counts and sleeps *)

Lemma replace1_app old new a b :
  replace1 old new (a ++ b) = replace1 old new a ++ replace1 old new b.
Proof. unfold replace1. apply flat_map_app. Qed.

Lemma PRICE_RE_search_skip pre s :
  forallb (fun c => negb (isdigit c)) pre = true ->
  PRICE_RE_search (pre ++ s) = PRICE_RE_search s.
Proof.
  induction pre as [|c pre IH]; simpl; [reflexivity|].
  intros H. apply andb_true_iff in H. destruct H as [Hc Hp].
  destruct (isdigit c); [discriminate|]. auto.
Qed.

Lemma replace1_nil_iff old c s : replace1 old [c] s = [] <-> s = [].
Proof.
  destruct s as [|x s]; simpl; [tauto|].
  destruct (x =? old); simpl; split; discriminate.
Qed.

Lemma parse_price_unfold text :
  parse_price text
  = match text with
    | [] => None
    | _ =>
        match PRICE_RE_search (replace1 NBSP (lit " ") text) with
        | None => None
        | Some (g1, g2) =>
            float_of_parts (replace1 32 [] g1)
              (match g2 with Some c => c | None => lit "00" end)
        end
    end.
Proof. reflexivity. Qed.

Lemma parse_price_nonempty text :
  text <> [] ->
  parse_price text
  = match PRICE_RE_search (replace1 NBSP (lit " ") text) with
    | None => None
    | Some (g1, g2) =>
        float_of_parts (replace1 32 [] g1)
          (match g2 with Some c => c | None => lit "00" end)
    end.
Proof. destruct text; [contradiction|reflexivity]. Qed.

(** X1. [parse_price] searches the text for the first digit: whatever stands
    before it (a label, a currency sign, spaces, line breaks) has no
    influence on the result, as long as it holds no digit itself. *)
Theorem parse_price_skips_text_before_digits pre text :
  forallb (fun c => negb (isdigit c)) pre = true ->
  parse_price (pre ++ text) = parse_price text.
Proof.
  intros H. destruct text as [|t text].
  - rewrite app_nil_r. now rewrite parse_price_no_digit.
  - rewrite !parse_price_nonempty; try discriminate.
    + rewrite replace1_app, PRICE_RE_search_skip; [reflexivity|].
      apply forallb_replace1; [reflexivity|exact H].
    + destruct pre; discriminate.
Qed.

Lemma replace1_idem text :
  replace1 NBSP (lit " ") (replace1 NBSP (lit " ") text)
  = replace1 NBSP (lit " ") text.
Proof.
  unfold replace1. induction text as [|c r IH]; simpl; [reflexivity|].
  destruct (c =? NBSP) eqn:E; simpl.
  - now rewrite IH.
  - rewrite E. simpl. now rewrite IH.
Qed.

(** X2. [parse_price] reads a non-breaking space as a plain space: a text
    and the same text with every U+00A0 replaced by a space have the
    same price, or both have none. *)
Theorem parse_price_nbsp_is_space text :
  parse_price (replace1 NBSP (lit " ") text) = parse_price text.
Proof.
  destruct text as [|c r]; [reflexivity|].
  rewrite !parse_price_nonempty, ?replace1_idem; try discriminate.
  - reflexivity.
  - intros E. destruct (replace1_nil_iff NBSP 32 (c :: r)) as [F _].
    specialize (F E). discriminate F.
Qed.






(** X4. Whatever the server answers, one call of [async_fetch_listing]
    spends at most 0.25 + 0.5 + 1 + 2 = 3.75 seconds asleep between its
    attempts. *)
Theorem fetch_sleeps_under_four_seconds resp slug page :
  (total_sleep (snd (async_fetch_listing resp slug page)) <= 15 # 4)%Q.
Proof.
  unfold total_sleep.
  destruct (fetch_loop_bounded 4 0 ASYNC_BASE_DELAY resp slug page)
    as (_ & m & Hm & E).
  unfold async_fetch_listing. rewrite E.
  do 5 (destruct m as [|m]; [vm_compute; discriminate|]). lia.
Qed.

Lemma parse_price_skips_text_before_digits_witness :
  parse_price (lit "Price: " ++ lit "999") = parse_price (lit "999").
Proof.
  apply (@parse_price_skips_text_before_digits (lit "Price: ") (lit "999")).
  reflexivity.
Defined.

(** ** Cards found by the parser *)

Lemma finalize_item_some p c :
  cur p = Some c ->
  exists it,
    items (finalize_item p) = items p ++ [it]
    /\ in_item (finalize_item p) = false
    /\ cur (finalize_item p) = None
    /\ named_in_full it
    /\ Item.product_id it = Item.product_id c.
Proof.
  intros E. unfold finalize_item. rewrite E. cbv zeta.
  set (c1 := if nonempty (Item.name c) then c
             else match pick_name (strip (join_space (text_buf p))) with
                  | Some n => Item.set_name n c
                  | None => c
                  end).
  assert (Hid : Item.product_id c1 = Item.product_id c).
  { subst c1. destruct (nonempty (Item.name c)); [reflexivity|].
    destruct (pick_name _); reflexivity. }
  clearbody c1.
  eexists. split; [reflexivity|]. split; [reflexivity|].
  split; [reflexivity|]. split.
  - unfold named_in_full. cbn [Item.name Item.product_name Item.set_price].
    destruct (nonempty (Item.product_name c1)) eqn:En.
    + intros _ F. rewrite F in En. discriminate.
    + cbn. auto.
  - cbn [Item.product_id Item.set_price].
    destruct (nonempty (Item.product_name c1)); [exact Hid|]. cbn. exact Hid.
Qed.

Lemma finalize_item_none p : cur p = None -> finalize_item p = p.
Proof. intros E. unfold finalize_item. now rewrite E. Qed.

Lemma upd_cur_frame f p :
  items (upd_cur f p) = items p /\ in_item (upd_cur f p) = in_item p.
Proof. unfold upd_cur. destruct (cur p); auto. Qed.

Lemma step_same p q :
  card_open q -> items q = items p -> in_item q = in_item p ->
  step_ok p q 0.
Proof.
  intros Ho Ei En. split; [exact Ho|]. split.
  - exists []. rewrite app_nil_r. auto.
  - unfold cards_seen. rewrite Ei, En. lia.
Qed.

Lemma step_finalize p : card_open p -> step_ok p (finalize_item p) 0.
Proof.
  intros Ho. destruct (cur p) as [c|] eqn:Ec.
  - destruct (@finalize_item_some p c Ec) as (it & Ei & En & Ecur & Hn & _).
    split; [|split].
    + unfold card_open. now rewrite En, Ecur.
    + exists [it]. auto.
    + unfold cards_seen. rewrite Ei, En, length_app.
      unfold card_open in Ho. rewrite Ec in Ho. rewrite Ho. simpl. lia.
  - rewrite (@finalize_item_none p Ec). apply step_same; auto.
Qed.

Lemma step_trans p q r m n :
  step_ok p q m -> step_ok q r n -> step_ok p r (m + n).
Proof.
  intros (_ & (e1 & E1 & F1) & S1) (Ho & (e2 & E2 & F2) & S2).
  split; [exact Ho|]. split.
  - exists (e1 ++ e2). rewrite E2, E1, app_assoc. split; [reflexivity|].
    apply Forall_app. auto.
  - lia.
Qed.

Lemma same_refl p : same_cards p p.
Proof. repeat split; auto. Qed.

Lemma same_with_lists p q a b c d e f :
  same_cards p q -> same_cards p (with_lists q a b c d e f).
Proof. intros H. exact H. Qed.

Lemma same_with_card p q d tb ipb ptb :
  same_cards p q ->
  same_cards p (with_card q (items q) (in_item q) d (cur q) tb ipb ptb).
Proof. intros H. exact H. Qed.

Lemma same_upd_cur p q f : same_cards p q -> same_cards p (upd_cur f q).
Proof.
  intros (Ho & Ei & En). destruct (upd_cur_frame f q) as (Fi & Fn).
  split; [|split]; try congruence.
  intros H. apply upd_cur_open, Ho, H.
Qed.

Ltac same_cards_tac :=
  repeat match goal with
         | |- context [if ?b then _ else _] => destruct b
         end;
  repeat first [ apply same_refl
               | apply same_with_lists
               | apply same_upd_cur
               | apply same_with_card ].

Lemma inner_starttag_same L p tag a : same_cards p (inner_starttag L p tag a).
Proof.
  unfold inner_starttag. cbv zeta. unfold set_depth, set_in_price_block.
  same_cards_tac.
Qed.

Lemma handle_data_same p d : same_cards p (handle_data p d).
Proof. unfold handle_data. cbv zeta. same_cards_tac. Qed.

Lemma step_of_same p q : card_open p -> same_cards p q -> step_ok p q 0.
Proof. intros Hp (Ho & Ei & En). apply step_same; auto. Qed.

Lemma handle_endtag_step p tag :
  card_open p -> step_ok p (handle_endtag p tag) 0.
Proof.
  intros Hp. unfold handle_endtag. cbv zeta.
  match goal with
  | |- step_ok _ (if in_item ?q then _ else _) _ =>
      assert (Hq : same_cards p q) by same_cards_tac;
      generalize dependent q
  end.
  intros q Hq. pose proof (step_of_same Hp Hq) as Sq.
  destruct (in_item q) eqn:En; [|exact Sq].
  assert (Sd : step_ok p (set_depth (depth q - 1) q) 0).
  { apply step_of_same; [exact Hp|]. destruct Hq as (Ho & Ei & Ein).
    repeat split; auto. }
  destruct (depth (set_depth (depth q - 1) q) =? 0)%Z; [|exact Sd].
  apply (step_trans (m:=0) (n:=0) Sd). apply step_finalize. apply Sd.
Qed.

Lemma start_item_step p a pid :
  card_open p -> step_ok p (start_item p a pid) 1.
Proof.
  intros Hp. unfold start_item. cbv zeta.
  destruct (in_item p && is_some (cur p)) eqn:E.
  - destruct (step_finalize Hp) as (Ho & (extra & Ei & Fe) & Es).
    split; [reflexivity|]. split.
    + exists extra. auto.
    + unfold cards_seen in *. cbn [items in_item with_card].
      apply andb_true_iff in E. destruct E as [E _]. rewrite E in Es.
      destruct (in_item (finalize_item p)) eqn:F.
      * unfold finalize_item in F. unfold card_open in Hp.
        rewrite E in Hp. destruct (cur p); [discriminate F|discriminate Hp].
      * rewrite E. lia.
  - split; [reflexivity|]. split.
    + exists []. rewrite app_nil_r. auto.
    + unfold cards_seen. cbn [items in_item with_card].
      unfold card_open in Hp. rewrite <- Hp, andb_diag in E. rewrite E. lia.
Qed.

Lemma handle_step L p e :
  card_open p ->
  step_ok p (handle L p e) (if opens_card e then 1 else 0).
Proof.
  intros Hp. destruct e as [tag a|tag|d]; simpl.
  - unfold handle_starttag. cbv zeta.
    destruct (str_eqb tag (lit "li")
              && contains (lit "listing-cards__item")
                          (or_empty (attr_get a (lit "class")))
              && truthy (por (attr_get a (lit "data-product-id"))
                             (por (attr_get a (lit "data-id"))
                                  (attr_get a (lit "data-productid"))))).
    + apply start_item_step, Hp.
    + destruct (in_item p).
      * apply step_of_same; [exact Hp|apply inner_starttag_same].
      * apply step_of_same; [exact Hp|apply same_refl].
  - apply handle_endtag_step, Hp.
  - apply step_of_same; [exact Hp|apply handle_data_same].
Qed.

Lemma fold_handle_step L evs p :
  card_open p ->
  step_ok p (fold_left (handle L) evs p) (cards_opened evs).
Proof.
  revert p. induction evs as [|e evs IH]; intros p Hp.
  - simpl. apply step_of_same; [exact Hp|apply same_refl].
  - simpl fold_left. unfold cards_opened. cbn [filter].
    pose proof (handle_step L e Hp) as S1.
    pose proof (IH _ (proj1 S1)) as S2.
    pose proof (step_trans S1 S2) as S3.
    destruct (opens_card e); exact S3.
Qed.

Lemma close_step L html p :
  card_open p ->
  step_ok p (close L p html) (cards_opened (close_events L html)).
Proof.
  intros Hp. unfold close. cbv zeta.
  assert (S1 : step_ok p (if in_item p && is_some (cur p)
                          then finalize_item p else p) 0).
  { destruct (in_item p && is_some (cur p)).
    - apply step_finalize, Hp.
    - apply step_of_same; [exact Hp|apply same_refl]. }
  apply (step_trans (m:=0) S1). apply fold_handle_step. apply S1.
Qed.

Lemma new_parser_open : card_open new_parser.
Proof. reflexivity. Qed.

Lemma parser_run_step L html :
  step_ok new_parser (close L (feed L new_parser html) html)
          (cards_opened (feed_events L html)
           + cards_opened (close_events L html)).
Proof.
  pose proof (fold_handle_step L (feed_events L html) new_parser_open) as S1.
  apply (step_trans S1). apply close_step. apply S1.
Qed.

(** X5. At every moment of a parse, after any sequence of tags and text,
    after [feed] and after [close], the flag [_in_item] is set exactly
    when there is a current card [_cur]. *)
Theorem parser_flag_follows_card L html evs :
  card_open (fold_left (handle L) evs new_parser)
  /\ card_open (feed L new_parser html)
  /\ card_open (close L (feed L new_parser html) html).
Proof.
  split; [|split].
  - apply (fold_handle_step L evs new_parser_open).
  - apply (fold_handle_step L (feed_events L html) new_parser_open).
  - apply (parser_run_step L html).
Qed.

(** X6. Every card the parser produces with a name also has a short name
    [product_name] (the name itself when no characteristic is cut off);
    so every product of [extract_products_from_html] has a short name. *)
Theorem parsed_cards_have_short_name L html :
  (forall it, In it (parser_items L html) ->
              Item.name it <> [] -> Item.product_name it <> [])
  /\ (forall it, In it (extract_products_from_html L html) ->
                 Item.product_name it <> []).
Proof.
  assert (H : Forall named_in_full (parser_items L html)).
  { destruct (parser_run_step L html) as (_ & (extra & E & F) & _).
    unfold parser_items. rewrite E. exact F. }
  rewrite Forall_forall in H. split.
  - intros it Hin. apply H, Hin.
  - intros it Hin. rewrite extract_is_filter, filter_In, retained_spec in Hin.
    destruct Hin as (Hin & Hn & _). apply (H _ Hin), Hn.
Qed.

Lemma finalized_when_closed L html :
  cards_opened (close_events L html) = 0%nat ->
  in_item (close L (feed L new_parser html) html) = false.
Proof.
  intros H0. unfold close. cbv zeta.
  set (p := feed L new_parser html).
  assert (Hp : card_open p)
    by apply (fold_handle_step L (feed_events L html) new_parser_open).
  set (g := if in_item p && is_some (cur p) then finalize_item p else p).
  assert (Hg : card_open g /\ in_item g = false).
  { subst g. unfold card_open in Hp.
    destruct (in_item p) eqn:E; simpl.
    - rewrite <- Hp. simpl. destruct (cur p) as [c|] eqn:Ec; [|discriminate].
      destruct (@finalize_item_some p c Ec) as (it & _ & En & Ecur & _).
      unfold card_open. rewrite En, Ecur. auto.
    - split; [unfold card_open; rewrite E; exact Hp|exact E]. }
  destruct Hg as (Hg & En).
  destruct (fold_handle_step L (close_events L html) Hg)
    as (_ & (extra & Ei & _) & Es).
  rewrite H0 in Es. unfold cards_seen in Es. rewrite Ei, En, length_app in Es.
  destruct (in_item (fold_left (handle L) (close_events L html) g));
    [lia|reflexivity].
Qed.

(** X7. On a page that is not empty and whose closing events open no card,
    [count_products_on_page] is the number of start tags [li] with the
    class [listing-cards__item] and a product id, and
    [extract_products_from_html] never returns more products than that. *)
Theorem count_products_is_cards_opened L html :
  html <> [] ->
  cards_opened (close_events L html) = 0%nat ->
  count_products_on_page L html = cards_opened (feed_events L html)
  /\ (List.length (extract_products_from_html L html)
      <= count_products_on_page L html)%nat.
Proof.
  intros Hh H0.
  assert (E : count_products_on_page L html
              = List.length (parser_items L html)).
  { unfold count_products_on_page. destruct html; [contradiction|reflexivity]. }
  rewrite E. split.
  - destruct (parser_run_step L html) as (_ & _ & Es).
    unfold cards_seen in Es. rewrite (finalized_when_closed L html H0), H0 in Es.
    unfold parser_items. simpl in Es. lia.
  - rewrite extract_is_filter. apply filter_length_le.
Qed.

Lemma count_products_is_cards_opened_witness :
  count_products_on_page sample_library sample_page
  = cards_opened (feed_events sample_library sample_page)
  /\ (List.length (extract_products_from_html sample_library sample_page)
      <= count_products_on_page sample_library sample_page)%nat.
Proof.
  apply (@count_products_is_cards_opened sample_library sample_page).
  - vm_compute. discriminate.
  - reflexivity.
Defined.

(** ** Proxy rotation and pooled clients *)

Lemma rotator_next_nonempty r :
  Rotator.proxies r <> [] ->
  Rotator.next r
  = (Some (nth (Rotator.idx r) (Rotator.proxies r) []),
     {| Rotator.proxies := Rotator.proxies r;
        Rotator.idx := (Rotator.idx r + 1)
                       mod List.length (Rotator.proxies r) |}).
Proof.
  unfold Rotator.next. destruct (Rotator.proxies r); [contradiction|reflexivity].
Qed.

Lemma rotator_nexts_S k r :
  Rotator.nexts (S k) r
  = (fst (Rotator.next r) :: fst (Rotator.nexts k (snd (Rotator.next r))),
     snd (Rotator.nexts k (snd (Rotator.next r)))).
Proof.
  cbn [Rotator.nexts]. destruct (Rotator.next r) as [v r1].
  cbn [fst snd]. now destruct (Rotator.nexts k r1).
Qed.

Lemma rotator_nexts_spec k r :
  Rotator.proxies r <> [] ->
  (Rotator.idx r < List.length (Rotator.proxies r))%nat ->
  Rotator.nexts k r
  = (map (fun i => Some (nth ((Rotator.idx r + i)
                              mod List.length (Rotator.proxies r))
                             (Rotator.proxies r) []))
         (seq 0 k),
     {| Rotator.proxies := Rotator.proxies r;
        Rotator.idx := (Rotator.idx r + k)
                       mod List.length (Rotator.proxies r) |}).
Proof.
  revert r. induction k as [|k IH]; intros r Hl Hi.
  - cbn [Rotator.nexts seq map]. rewrite Nat.add_0_r, Nat.mod_small by assumption.
    now destruct r.
  - assert (Hn : List.length (Rotator.proxies r) <> 0%nat).
    { destruct (Rotator.proxies r); [contradiction|discriminate]. }
    rewrite rotator_nexts_S, (@rotator_next_nonempty r Hl). cbn [fst snd].
    rewrite IH; cbn [Rotator.proxies Rotator.idx fst snd];
      [| exact Hl | apply Nat.mod_upper_bound, Hn].
    f_equal.
    + cbn [seq map]. f_equal.
      * rewrite Nat.add_0_r, Nat.mod_small by assumption. reflexivity.
      * rewrite <- seq_shift, map_map. apply map_ext. intros j.
        rewrite Nat.Div0.add_mod_idemp_l. do 3 f_equal. lia.
    + f_equal. rewrite Nat.Div0.add_mod_idemp_l. f_equal. lia.
Qed.

Lemma nth_seq_all (l : list str) :
  map (fun i => nth i l []) (seq 0 (List.length l)) = l.
Proof.
  induction l as [|x l IH]; [reflexivity|].
  cbn [List.length seq map nth]. f_equal.
  rewrite <- seq_shift, map_map. exact IH.
Qed.

(** X8. A [ProxyRotator] over a list of [n > 0] proxies answers its [i]-th
    call of [next] with the proxy at position [i mod n] of the shuffled
    list: [n] calls in a row give every proxy of the list once, and leave
    the rotator as it was at the start. *)
Theorem rotator_round_robin shuffle l k :
  (forall x, Permutation (shuffle x) x) ->
  l <> [] ->
  let r := Rotator.init shuffle l in
  let n := List.length l in
  (forall i, (i < k)%nat ->
     nth_error (fst (Rotator.nexts k r)) i
     = Some (Some (nth (i mod n) (shuffle l) [])))
  /\ fst (Rotator.nexts n r) = map Some (shuffle l)
  /\ Permutation (fst (Rotator.nexts n r)) (map Some l)
  /\ snd (Rotator.nexts n r) = r.
Proof.
  intros Hperm Hl r n.
  assert (Hlen : List.length (shuffle l) = n)
    by apply Permutation_length, Hperm.
  assert (Hne : Rotator.proxies r <> []).
  { subst r. cbn. intros E. rewrite E in Hlen. subst n.
    destruct l; [contradiction|discriminate]. }
  assert (Hn : n <> 0%nat) by (subst n; destruct l; [contradiction|discriminate]).
  assert (Hi : (Rotator.idx r < List.length (Rotator.proxies r))%nat).
  { subst r. cbn. lia. }
  split; [|split; [|split]].
  - intros i Hik. rewrite (@rotator_nexts_spec k r Hne Hi). cbn [fst].
    subst r. cbn [Rotator.init Rotator.proxies Rotator.idx].
    rewrite nth_error_map, nth_error_seq. 
    destruct (Nat.ltb_spec i k) as [_|H]; [|lia].
    cbn. now rewrite Hlen.
  - rewrite (@rotator_nexts_spec n r Hne Hi). cbn [fst].
    subst r. cbn [Rotator.init Rotator.proxies Rotator.idx]. rewrite Hlen.
    transitivity (map Some (map (fun i => nth i (shuffle l) [])
                                (seq 0 (List.length (shuffle l)))));
      [|now rewrite nth_seq_all].
    rewrite Hlen, map_map.
    apply map_ext_in. intros i Hin. apply in_seq in Hin.
    cbn. now rewrite Nat.mod_small by lia.
  - rewrite (@rotator_nexts_spec n r Hne Hi). cbn [fst].
    subst r. cbn [Rotator.init Rotator.proxies Rotator.idx]. rewrite Hlen.
    apply Permutation_trans with (map Some (shuffle l));
      [|apply Permutation_map, Hperm].
    apply Permutation_refl'.
    transitivity (map Some (map (fun i => nth i (shuffle l) [])
                                (seq 0 (List.length (shuffle l)))));
      [|now rewrite nth_seq_all].
    rewrite Hlen, map_map. apply map_ext_in. intros i Hin.
    apply in_seq in Hin. cbn. now rewrite Nat.mod_small by lia.
  - rewrite (@rotator_nexts_spec n r Hne Hi). cbn [snd].
    subst r. cbn [Rotator.init Rotator.proxies Rotator.idx]. rewrite Hlen.
    cbn. now rewrite Nat.Div0.mod_same.
Qed.

Lemma rotator_round_robin_witness :
  let l := [lit "http://a:1"; lit "http://b:2"; lit "http://c:3"] in
  let r := Rotator.init (@rev str) l in
  (forall i, (i < 9)%nat ->
     nth_error (fst (Rotator.nexts 9 r)) i
     = Some (Some (nth (i mod List.length l) (rev l) [])))
  /\ fst (Rotator.nexts (List.length l) r) = map Some (rev l)
  /\ Permutation (fst (Rotator.nexts (List.length l) r)) (map Some l)
  /\ snd (Rotator.nexts (List.length l) r) = r.
Proof.
  apply (@rotator_round_robin (@rev str)
           [lit "http://a:1"; lit "http://b:2"; lit "http://c:3"] 9).
  - intros x. apply Permutation_sym, Permutation_rev.
  - discriminate.
Defined.

Lemma pool_lookup_app key pool extra :
  ClientPool.lookup key (pool ++ extra)
  = match ClientPool.lookup key pool with
    | Some c => Some c
    | None => ClientPool.lookup key extra
    end.
Proof.
  induction pool as [|[k c] pool IH]; simpl; [reflexivity|].
  now destruct (str_eqb k key).
Qed.

Lemma pool_lookup_in key pool c :
  ClientPool.lookup key pool = Some c -> In (key, c) pool.
Proof.
  induction pool as [|[k c0] pool IH]; simpl; [discriminate|].
  destruct (str_eqb k key) eqn:E.
  - apply str_eqb_eq in E. subst. intros [= ->]. auto.
  - auto.
Qed.

Lemma pool_lookup_none key pool :
  ClientPool.lookup key pool = None -> ~ In key (map fst pool).
Proof.
  induction pool as [|[k c0] pool IH]; simpl; [tauto|].
  destruct (str_eqb k key) eqn:E; [discriminate|].
  intros H [->|Hin]; [now rewrite str_eqb_refl in E|now apply IH].
Qed.

(** X9. [AsyncHttpClientPool.get_client] keeps one client per route: a
    second call with the same proxy returns the same client and leaves
    the pool as it is; the client made for a proxy uses that proxy;
    clients of other routes stay; a call adds at most one client. *)
Theorem pool_keeps_one_client_per_route pool proxy_url :
  ClientPool.well_keyed pool ->
  let c := fst (ClientPool.get_client pool proxy_url) in
  let pool' := snd (ClientPool.get_client pool proxy_url) in
  ClientPool.well_keyed pool'
  /\ ClientPool.get_client pool' proxy_url = (c, pool')
  /\ ClientPool.key_of c = ClientPool.key_of proxy_url
  /\ (truthy proxy_url = true -> proxy_url <> Some (lit "__direct__") ->
      c = proxy_url)
  /\ (forall k c0, ClientPool.lookup k pool = Some c0 ->
                   ClientPool.lookup k pool' = Some c0)
  /\ (List.length pool <= List.length pool' <= S (List.length pool))%nat.
Proof.
  intros (Hnd & Hkey). cbv zeta. unfold ClientPool.get_client. cbv zeta.
  destruct (ClientPool.lookup (ClientPool.key_of proxy_url) pool) as [c|] eqn:E;
    cbn [fst snd].
  - pose proof (Hkey _ _ (pool_lookup_in _ _ E)) as Hc.
    split; [split; assumption|]. split; [now rewrite E|].
    split; [exact Hc|]. split; [|split; [auto|lia]].
    intros Ht Hd. unfold ClientPool.key_of in Hc. rewrite Ht in Hc.
    destruct proxy_url as [u|]; [|discriminate]. simpl in Hc.
    destruct (truthy c) eqn:Tc.
    + destruct c as [u'|]; [|discriminate]. simpl in Hc. now subst.
    + subst u. contradiction.
  - split.
    + split.
      * rewrite map_app. apply NoDup_app; [assumption|repeat constructor; intros []|].
        intros k Hk [<-|[]]. exact (pool_lookup_none _ _ E Hk).
      * intros k c Hin. apply in_app_or in Hin. destruct Hin as [Hin|[[= <- <-]|[]]];
          [apply Hkey, Hin|reflexivity].
    + split.
      * rewrite pool_lookup_app, E. simpl. now rewrite str_eqb_refl.
      * split; [reflexivity|]. split; [reflexivity|]. split.
        -- intros k c0 H. now rewrite pool_lookup_app, H.
        -- rewrite length_app. simpl. lia.
Qed.

Lemma pool_keeps_one_client_per_route_witness :
  let proxy_url := Some (lit "http://a:1") in
  let c := fst (ClientPool.get_client [] proxy_url) in
  let pool' := snd (ClientPool.get_client [] proxy_url) in
  ClientPool.well_keyed pool'
  /\ ClientPool.get_client pool' proxy_url = (c, pool')
  /\ ClientPool.key_of c = ClientPool.key_of proxy_url
  /\ (truthy proxy_url = true -> proxy_url <> Some (lit "__direct__") ->
      c = proxy_url)
  /\ (forall k c0, ClientPool.lookup k [] = Some c0 ->
                   ClientPool.lookup k pool' = Some c0)
  /\ (List.length (@nil (str * ClientPool.client)) <= List.length pool'
      <= S (List.length (@nil (str * ClientPool.client))))%nat.
Proof.
  apply (@pool_keeps_one_client_per_route [] (Some (lit "http://a:1"))).
  split; [constructor|intros k c []].
Defined.

(** ** Isolation of categories in the checkpoint *)

Lemma lit_inj a b : lit a = lit b -> a = b.
Proof.
  unfold lit. intros H.
  rewrite <- (string_of_list_ascii_of_string a),
          <- (string_of_list_ascii_of_string b).
  f_equal. revert H.
  generalize (list_ascii_of_string a) (list_ascii_of_string b).
  induction l as [|x l IH]; intros [|y l']; simpl; try discriminate; auto.
  intros [= Hx Hl]. f_equal; [|auto].
  rewrite <- (ascii_N_embedding x), <- (ascii_N_embedding y). now rewrite Hx.
Qed.

Lemma to_int_plain z : Z.to_int z <> Decimal.Pos Decimal.Nil
                       /\ Z.to_int z <> Decimal.Neg Decimal.Nil.
Proof.
  destruct z as [|p|p]; simpl; split; try discriminate;
    intros [= H]; now apply (Unsigned.to_uint_nonnil p).
Qed.

Lemma str_of_Z_inj a b : str_of_Z a = str_of_Z b -> a = b.
Proof.
  unfold str_of_Z. intros H. apply lit_inj in H.
  apply DecimalZ.to_int_inj.
  destruct (to_int_plain a) as (A1 & A2), (to_int_plain b) as (B1 & B2).
  pose proof (NilZero.isi _ A1 A2) as Ea. pose proof (NilZero.isi _ B1 B2) as Eb.
  rewrite H in Ea. congruence.
Qed.

Lemma str_eqb_neq a b : a <> b -> str_eqb a b = false.
Proof.
  intros H. destruct (str_eqb a b) eqn:E; [|reflexivity].
  apply str_eqb_eq in E. contradiction.
Qed.

Lemma dict_get_set_other k k' v d :
  k <> k' -> dict_get k' (dict_set k v d) = dict_get k' d.
Proof.
  intros Hk. induction d as [|[k0 v0] d IH]; simpl.
  - now rewrite (str_eqb_neq Hk).
  - destruct (str_eqb k0 k) eqn:E; simpl.
    + apply str_eqb_eq in E. subst k0. now rewrite (str_eqb_neq Hk).
    + now rewrite IH.
Qed.

Lemma dict_get_del_other k k' d :
  k <> k' -> dict_get k' (dict_del k d) = dict_get k' d.
Proof.
  intros Hk. unfold dict_del. induction d as [|[k0 v0] d IH]; simpl; auto.
  destruct (str_eqb k0 k) eqn:E; simpl.
  - apply str_eqb_eq in E. subst k0. now rewrite (str_eqb_neq Hk).
  - now rewrite IH.
Qed.

Lemma insert_sorted_In x y l : In y (insert_sorted x l) <-> y = x \/ In y l.
Proof.
  induction l as [|z l IH]; simpl; [intuition|].
  destruct (x <? z)%Z; simpl; [intuition|].
  destruct (x =? z)%Z eqn:E; simpl.
  - apply Z.eqb_eq in E. subst. intuition.
  - rewrite IH. intuition.
Qed.

Lemma insert_sorted_sorted x l :
  StronglySorted Z.lt l -> StronglySorted Z.lt (insert_sorted x l).
Proof.
  induction 1 as [|z l Hs IH Hall]; simpl; [repeat constructor|].
  destruct (x <? z)%Z eqn:E1.
  - apply Z.ltb_lt in E1. constructor; [constructor; assumption|].
    constructor; [assumption|].
    rewrite Forall_forall in *. intros y Hy. specialize (Hall y Hy). lia.
  - destruct (x =? z)%Z eqn:E2; [constructor; assumption|].
    apply Z.ltb_ge in E1. apply Z.eqb_neq in E2.
    constructor; [assumption|]. rewrite Forall_forall in *.
    intros y Hy. apply insert_sorted_In in Hy. destruct Hy as [->|Hy]; [lia|auto].
Qed.

Lemma sorted_set_sorted l : StronglySorted Z.lt (sorted_set l).
Proof.
  unfold sorted_set. induction l as [|x l IH]; simpl; [constructor|].
  apply insert_sorted_sorted, IH.
Qed.

Lemma sorted_set_In y l : In y (sorted_set l) <-> In y l.
Proof.
  unfold sorted_set. induction l as [|x l IH]; simpl; [tauto|].
  rewrite insert_sorted_In, IH. intuition.
Qed.

Lemma run_pages_other L env cid slug order w :
  other_untouched cid (progress w)
                  (progress (run_pages L env cid slug order w)).
Proof.
  revert w. induction order as [|p order IH]; intros w.
  - split; auto.
  - rewrite run_pages_cons.
    set (w1 := snd (process_page L (page_resp env p) (db_up env p)
                                 slug p cid slug w)).
    destruct (IH w1) as (Ec & Ed).
    assert (H1 : other_untouched cid (progress w) (progress w1)).
    { subst w1.
      destruct (process_page_effect L env slug p cid w)
        as [(_ & _ & -> & _)|(_ & _ & ->)]; [split; auto|].
      split; [reflexivity|]. intros cid' Hne. cbn [category_pages].
      apply dict_get_set_other. intros E. apply str_of_Z_inj in E. congruence. }
    destruct H1 as (Ec1 & Ed1). split; [congruence|].
    intros cid' Hne. rewrite (Ed cid' Hne). auto.
Qed.

(** X10. A run of [process_category_async] for one category leaves the
    saved cursor and the completion mark of every other category as
    they were, and removes no product from the table. *)
Theorem category_run_keeps_other_categories L env cid slug w :
  let w' := process_category_async L env cid slug w in
  (forall cid', cid' <> cid ->
     start_page_of cid' (progress w') = start_page_of cid' (progress w)
     /\ (In cid' (completed_categories (progress w'))
         <-> In cid' (completed_categories (progress w))))
  /\ (forall k, In k (map fst (products w)) -> In k (map fst (products w'))).
Proof.
  cbv zeta. rewrite process_category_async_unfold. cbv zeta.
  set (w1 := add_log (snd (async_fetch_listing (size_resp env) slug 1)) w).
  destruct (fst (async_get_total_pages (size_resp env) slug) <=? 0)%Z.
  - split; [|auto]. intros cid' _. split; reflexivity.
  - match goal with
    | |- context [run_pages L env cid slug ?o w1] => set (order := o)
    end.
    destruct (run_pages_other L env cid slug order w1) as (Ec & Ed).
    split.
    + intros cid' Hne. split.
      * unfold start_page_of, complete. cbn [progress category_pages].
        rewrite dict_get_del_other, (Ed cid' Hne); [reflexivity|].
        intros E. apply str_of_Z_inj in E. congruence.
      * unfold complete. cbn [progress completed_categories].
        rewrite sorted_set_In, Ec. simpl. intuition congruence.
    + intros k Hk. rewrite run_pages_products.
      apply (run_pages_upserts L env cid slug order w1), Hk.
Qed.

(** X11. After a run of [process_category_async] on a category with at
    least one page, [completed_categories] is sorted in ascending order
    without repetition, and holds the category and what it held
    before, nothing else. *)
Theorem completed_list_sorted_and_grown L env cid slug w :
  (0 < fst (async_get_total_pages (size_resp env) slug))%Z ->
  let w' := process_category_async L env cid slug w in
  StronglySorted Z.lt (completed_categories (progress w'))
  /\ (forall x, In x (completed_categories (progress w'))
                <-> x = cid \/ In x (completed_categories (progress w))).
Proof.
  intros Ht. cbv zeta. rewrite process_category_async_unfold. cbv zeta.
  apply Z.leb_gt in Ht. rewrite Ht.
  match goal with
  | |- context [run_pages L env cid slug ?o ?w1] =>
      destruct (run_pages_other L env cid slug o w1) as (Ec & _)
  end.
  unfold complete. cbn [progress completed_categories].
  split; [apply sorted_set_sorted|].
  intros x. rewrite sorted_set_In, Ec. simpl. intuition.
Qed.

Lemma completed_list_sorted_and_grown_witness :
  StronglySorted Z.lt
    (completed_categories
       (progress (process_category_async sample_library
                    (three_pages [3; 1; 2]%Z) 42 (lit "pipes") new_world)))
  /\ (forall x,
         In x (completed_categories
                 (progress (process_category_async sample_library
                              (three_pages [3; 1; 2]%Z) 42 (lit "pipes")
                              new_world)))
         <-> x = 42%Z \/ In x (completed_categories (progress new_world))).
Proof.
  apply (@completed_list_sorted_and_grown sample_library
           (three_pages [3; 1; 2]%Z) 42%Z (lit "pipes") new_world).
  reflexivity.
Defined.

(** ** Properties of the upsert *)

Lemma str_eqb_sym a b : str_eqb a b = str_eqb b a.
Proof.
  destruct (str_eqb a b) eqn:E.
  - apply str_eqb_eq in E. subst. now rewrite str_eqb_refl.
  - destruct (str_eqb b a) eqn:F; [|reflexivity].
    apply str_eqb_eq in F. subst. now rewrite str_eqb_refl in E.
Qed.

Lemma table_get_upsert_row k r t :
  table_get k (upsert_row r t)
  = if str_eqb (sku_of r) k then Some r else table_get k t.
Proof.
  induction t as [|[k0 old] t IH]; simpl.
  - reflexivity.
  - destruct (str_eqb k0 (sku_of r)) eqn:E; simpl.
    + apply str_eqb_eq in E. subst k0. now destruct (str_eqb (sku_of r) k).
    + rewrite IH. destruct (str_eqb k0 k) eqn:F; [|reflexivity].
      apply str_eqb_eq in F. subst k0.
      now rewrite str_eqb_sym, E.
Qed.

Lemma find_app {A} (f : A -> bool) l1 l2 :
  find f (l1 ++ l2) = match find f l1 with Some x => Some x | None => find f l2 end.
Proof. induction l1 as [|x l IH]; simpl; [reflexivity|]. now destruct (f x). Qed.

Lemma table_get_upsert_products k rows t :
  table_get k (upsert_products rows t)
  = match last_for k rows with Some r => Some r | None => table_get k t end.
Proof.
  unfold upsert_products, last_for. revert t.
  induction rows as [|r rows IH]; intros t; [reflexivity|].
  cbn [fold_left rev]. rewrite IH, find_app, table_get_upsert_row.
  destruct (find _ (rev rows)); [reflexivity|]. simpl.
  now destruct (str_eqb (sku_of r) k).
Qed.

Lemma upsert_row_keys r t :
  map fst (upsert_row r t)
  = if existsb (fun k => str_eqb k (sku_of r)) (map fst t)
    then map fst t else map fst t ++ [sku_of r].
Proof.
  induction t as [|[k0 old] t IH]; simpl; [reflexivity|].
  destruct (str_eqb k0 (sku_of r)); simpl; [reflexivity|].
  rewrite IH. now destruct (existsb _ (map fst t)).
Qed.

Lemma existsb_key ks k :
  existsb (fun k0 => str_eqb k0 k) ks = true <-> In k ks.
Proof.
  rewrite existsb_exists. split.
  - intros (x & Hx & E). apply str_eqb_eq in E. now subst.
  - intros H. exists k. split; [assumption|apply str_eqb_refl].
Qed.

Lemma upsert_row_nodup r t :
  NoDup (map fst t) -> NoDup (map fst (upsert_row r t)).
Proof.
  intros H. rewrite upsert_row_keys.
  destruct (existsb _ (map fst t)) eqn:E; [assumption|].
  apply NoDup_app; [assumption|repeat constructor; intros []|].
  intros k Hk [<-|[]]. apply existsb_key in Hk. congruence.
Qed.

Lemma upsert_row_length r t :
  (List.length t <= List.length (upsert_row r t) <= S (List.length t))%nat.
Proof.
  rewrite <- !(length_map fst), upsert_row_keys.
  destruct (existsb _ (map fst t)); [lia|]. rewrite length_app. simpl. lia.
Qed.

Lemma upsert_products_shape rows t :
  NoDup (map fst t) ->
  NoDup (map fst (upsert_products rows t))
  /\ (forall k, In k (map fst t) -> In k (map fst (upsert_products rows t)))
  /\ (List.length t <= List.length (upsert_products rows t)
      <= List.length t + List.length rows)%nat.
Proof.
  unfold upsert_products. revert t.
  induction rows as [|r rows IH]; intros t H; simpl.
  - repeat split; auto; lia.
  - destruct (IH (upsert_row r t) (@upsert_row_nodup r t H)) as (Hn & Hk & Hl).
    pose proof (upsert_row_length r t).
    split; [exact Hn|]. split; [|lia].
    intros k Hin. apply Hk, upsert_row_keeps_keys, Hin.
Qed.

(** Two tables with the same keys in the same order, each key once, and
    the same row under every key are the same table. *)
Lemma table_ext (t1 t2 : table) :
  NoDup (map fst t1) ->
  map fst t1 = map fst t2 ->
  (forall k, table_get k t1 = table_get k t2) ->
  t1 = t2.
Proof.
  revert t2. induction t1 as [|[k r] t1 IH]; intros [|[k' r'] t2] Hn Hk Hg;
    simpl in Hk; try discriminate; [reflexivity|].
  injection Hk as <- Hk. inversion Hn as [|? ? Hnot Hn']; subst.
  pose proof (Hg k) as Hg0. simpl in Hg0. rewrite str_eqb_refl in Hg0.
  injection Hg0 as <-. f_equal. apply IH; auto.
  intros k0. specialize (Hg k0). simpl in Hg.
  destruct (str_eqb k k0) eqn:E; [|assumption].
  apply str_eqb_eq in E. subst k0.
  assert (Hno : forall t : table, ~ In k (map fst t) -> table_get k t = None).
  { induction t as [|[k1 r1] t IHt]; simpl; [reflexivity|]. intros Hni.
    destruct (str_eqb k1 k) eqn:F.
    - apply str_eqb_eq in F. subst. tauto.
    - apply IHt. tauto. }
  rewrite (Hno t1 Hnot). rewrite Hk in Hnot. now rewrite (Hno t2 Hnot).
Qed.

Lemma upsert_products_app a b t :
  upsert_products (a ++ b) t = upsert_products b (upsert_products a t).
Proof. unfold upsert_products. apply fold_left_app. Qed.

Lemma upsert_products_keys_present rows t :
  (forall r, In r rows -> In (sku_of r) (map fst t)) ->
  map fst (upsert_products rows t) = map fst t.
Proof.
  unfold upsert_products. revert t.
  induction rows as [|r rows IH]; intros t H; simpl; [reflexivity|].
  assert (E : map fst (upsert_row r t) = map fst t).
  { rewrite upsert_row_keys.
    destruct (existsb _ (map fst t)) eqn:F; [reflexivity|].
    assert (In (sku_of r) (map fst t)) by (apply H; left; reflexivity).
    apply existsb_key in H0. congruence. }
  rewrite IH, E; [reflexivity|].
  intros r' Hr'. rewrite E. apply H. right. assumption.
Qed.

(** X13. [upsert_products] is idempotent: on a table with unique keys,
    delivering the same batch a second time leaves the table as the
    first delivery made it. *)
Theorem upsert_twice_is_once rows t :
  NoDup (map fst t) ->
  upsert_products rows (upsert_products rows t) = upsert_products rows t.
Proof.
  intros Hn. destruct (@upsert_products_shape rows t Hn) as (Hn1 & _ & _).
  destruct (@upsert_products_shape rows _ Hn1) as (Hn2 & _ & _).
  apply table_ext; [exact Hn2| |].
  - apply upsert_products_keys_present. intros r Hr.
    apply upsert_products_keys, Hr.
  - intros k. rewrite !table_get_upsert_products.
    now destruct (last_for k rows).
Qed.

(** X12. [upsert_products] keeps the key [sku] unique, removes no key
    from the table, and adds at most one line per row of the batch. *)
Theorem upsert_keeps_primary_key rows t :
  NoDup (map fst t) ->
  NoDup (map fst (upsert_products rows t))
  /\ (forall k, In k (map fst t) -> In k (map fst (upsert_products rows t)))
  /\ (List.length t <= List.length (upsert_products rows t)
      <= List.length t + List.length rows)%nat.
Proof. apply upsert_products_shape. Qed.

Lemma upsert_keeps_primary_key_witness :
  NoDup (map fst (upsert_products [sample_row; sample_row] []))
  /\ (forall k, In k (map fst (@nil (str * ProductRow.t))) ->
                In k (map fst (upsert_products [sample_row; sample_row] [])))
  /\ (List.length (@nil (str * ProductRow.t))
      <= List.length (upsert_products [sample_row; sample_row] [])
      <= List.length (@nil (str * ProductRow.t))
         + List.length [sample_row; sample_row])%nat.
Proof.
  apply (@upsert_keeps_primary_key [sample_row; sample_row] []).
  simpl. constructor.
Defined.

Lemma upsert_twice_is_once_witness :
  upsert_products [sample_row; sample_row]
                  (upsert_products [sample_row; sample_row] [])
  = upsert_products [sample_row; sample_row] [].
Proof.
  apply (@upsert_twice_is_once [sample_row; sample_row] []).
  simpl. constructor.
Defined.

(** X14. After [upsert_products], the line stored under a key is the last
    row of the batch with that name; when the batch has no row with
    that name, the line is the one stored before, if any. *)
Theorem upsert_stores_last_row_of_batch k rows t :
  table_get k (upsert_products rows t)
  = match last_for k rows with
    | Some r => Some r
    | None => table_get k t
    end.
Proof. apply table_get_upsert_products. Qed.

(** ** Properties of the sequential crawler *)

Ltac listing_cases answer :=
  unfold get_listing; cbn [get_listing_loop];
  repeat match goal with
         | |- context [match answer ?k with _ => _ end] =>
             let A := fresh "A" in
             destruct (answer k) as [?st ?txt|] eqn:A
         | |- context [if response_ok ?s && nonempty ?t then _ else _] =>
             let E := fresh "E" in
             destruct (response_ok s && nonempty t) eqn:E
         | |- context [if (?s =? 429)%Z then _ else _] =>
             let E := fresh "E" in
             destruct (s =? 429)%Z eqn:E
         | |- context [(?a <? 3 - 1)%nat] =>
             change (a <? 3 - 1)%nat with true
         | |- context [(2 <? 3 - 1)%nat] =>
             change (2 <? 3 - 1)%nat with false
         end;
  cbn [fst snd requests sleeps].




Lemma crawl_pages_unfold L fuel s cid slug p w :
  crawl_pages L (S fuel) s cid slug p w
  = let w1 := add_log (page_requests s slug p) w in
    match page_content L s slug p with
    | None => Some (Drained, w1)
    | Some its =>
        if database_up s p
        then crawl_pages L fuel s cid slug (p + 1)
               (add_log [Sleep SLEEP_BETWEEN; Sleep SLEEP_BETWEEN]
                  (advance cid p
                     {| progress := progress w1; checkpoint := checkpoint w1;
                        products :=
                          upsert_products (map (make_row L cid slug) its)
                                          (products w1);
                        log := log w1
                               ++ [Upsert (map (make_row L cid slug) its)] |}))
        else Some (Aborted, w1)
    end.
Proof.
  cbn [crawl_pages]. unfold page_content, page_requests.
  destruct (get_listing (listing s p) slug p) as [[html rec] l].
  cbn [fst snd]. destruct html as [[|c h]|]; try reflexivity.
  destruct (extract_products_from_html L (c :: h)); reflexivity.
Qed.

Lemma get_listing_requests answer slug page :
  Forall is_request (snd (get_listing answer slug page))
  /\ In (Get slug page) (snd (get_listing answer slug page))
  /\ forall s q, In (Get s q) (snd (get_listing answer slug page)) ->
                 s = slug /\ q = page.
Proof.
  listing_cases answer;
    (split; [repeat constructor|]);
    (split; [left; reflexivity|]);
    intros s q H; simpl in H;
    repeat match goal with
           | H : _ \/ _ |- _ => destruct H as [H|H]
           end;
    try contradiction; try discriminate H; injection H as <- <-; auto.
Qed.

Lemma page_requests_spec s slug p :
  Forall is_request (page_requests s slug p)
  /\ In (Get slug p) (page_requests s slug p)
  /\ forall s' q, In (Get s' q) (page_requests s slug p) ->
                  s' = slug /\ q = p.
Proof.
  unfold page_requests.
  destruct (get_listing_requests (listing s p) slug p) as (F & I & O).
  split; [|split].
  - apply Forall_app. split; [exact F|].
    destruct (snd (fst _)); repeat constructor.
  - apply in_or_app. left. exact I.
  - intros s' q H. apply in_app_or in H. destruct H as [H|H]; [auto|].
    destruct (snd (fst _)); simpl in H; [destruct H as [H|[]]; discriminate|tauto].
Qed.

Lemma crawl_pages_run L s cid slug k :
  forall page w fuel e,
    (forall i, (i < k)%nat ->
       stops_at L s slug (page + Z.of_nat i) = None) ->
    stops_at L s slug (page + Z.of_nat k) = Some e ->
    (k < fuel)%nat ->
    exists w' added,
      crawl_pages L fuel s cid slug page w = Some (e, w')
      /\ log w' = log w ++ added
      /\ saved_cursors cid added
         = map (fun i => Some (page + Z.of_nat i + 1)%Z) (seq 0 k)
      /\ completed_categories (progress w') = completed_categories (progress w)
      /\ dict_get (str_of_Z cid) (category_pages (progress w'))
         = (if (k =? 0)%nat
            then dict_get (str_of_Z cid) (category_pages (progress w))
            else Some (page + Z.of_nat k)%Z)
      /\ (forall s' q, In (Get s' q) added ->
            s' = slug /\ (page <= q <= page + Z.of_nat k)%Z)
      /\ (forall q, (page <= q <= page + Z.of_nat k)%Z ->
            In (Get slug q) added)
      /\ (forall cid', cid' <> cid ->
            dict_get (str_of_Z cid') (category_pages (progress w'))
            = dict_get (str_of_Z cid') (category_pages (progress w))).
Proof.
  induction k as [|k IH]; intros page w fuel e Hgood Hstop Hfuel;
    (destruct fuel as [|fuel]; [lia|]); rewrite crawl_pages_unfold; cbv zeta;
    destruct (page_requests_spec s slug page) as (Freq & Ireq & Oreq).
  - rewrite Z.add_0_r in Hstop. unfold stops_at in Hstop.
    exists (add_log (page_requests s slug page) w), (page_requests s slug page).
    split.
    { destruct (page_content L s slug page).
      - destruct (database_up s page); [discriminate|]. now injection Hstop as <-.
      - now injection Hstop as <-. }
    split; [apply add_log_log|]. split; [|split; [|split; [|split; [|split]]]].
    + unfold saved_cursors. now rewrite (saves_requests Freq).
    + reflexivity.
    + reflexivity.
    + intros s' q H. apply Oreq in H. destruct H as [-> ->].
      split; [reflexivity|lia].
    + intros q Hq. replace q with page by lia. exact Ireq.
    + reflexivity.
  - pose proof (Hgood 0%nat ltac:(lia)) as H0. rewrite Z.add_0_r in H0.
    unfold stops_at in H0.
    destruct (page_content L s slug page) as [its|]; [|discriminate].
    destruct (database_up s page); [|discriminate].
    match goal with
    | |- context [crawl_pages L fuel s cid slug (page + 1) ?x] =>
        set (w2 := x)
    end.
    destruct (IH (page + 1)%Z w2 fuel e)
      as (w' & added & E & El & Hc & Hcomp & Hcur & Hget & Hall & Hoth).
    + intros i Hi. replace (page + 1 + Z.of_nat i)%Z
        with (page + Z.of_nat (S i))%Z by lia. apply Hgood. lia.
    + replace (page + 1 + Z.of_nat k)%Z with (page + Z.of_nat (S k))%Z by lia.
      exact Hstop.
    + lia.
    + set (mine := page_requests s slug page
                   ++ [Upsert (map (make_row L cid slug) its);
                       Save (progress w2);
                       Sleep SLEEP_BETWEEN; Sleep SLEEP_BETWEEN]).
      assert (Elog : log w2 = log w ++ mine).
      { subst w2 mine. cbn [log add_log advance progress].
        rewrite <- !app_assoc. reflexivity. }
      assert (Ecur : dict_get (str_of_Z cid) (category_pages (progress w2))
                     = Some (page + 1)%Z).
      { subst w2. cbn [progress add_log advance category_pages].
        apply dict_get_set. }
      exists w', (mine ++ added). split; [exact E|].
      split; [rewrite El, Elog; now rewrite app_assoc|].
      split; [|split; [|split; [|split; [|split]]]].
      * rewrite saved_cursors_app, Hc. subst mine.
        rewrite saved_cursors_app. unfold saved_cursors at 1.
        rewrite (saves_requests Freq). cbn [map app].
        unfold saved_cursors at 1. cbn [saves map]. rewrite Ecur.
        cbn [seq map app]. f_equal.
        -- f_equal. lia.
        -- rewrite <- seq_shift, map_map. apply map_ext. intros i.
           f_equal. lia.
      * rewrite Hcomp. reflexivity.
      * rewrite Hcur. cbn [Nat.eqb]. destruct (k =? 0)%nat eqn:Ek.
        -- apply Nat.eqb_eq in Ek. subst k. rewrite Ecur. f_equal; lia.
        -- f_equal. lia.
      * intros s' q H. apply in_app_or in H. destruct H as [H|H].
        -- subst mine. apply in_app_or in H. destruct H as [H|H].
           ++ apply Oreq in H. destruct H as [-> ->]. split; [reflexivity|lia].
           ++ simpl in H.
              repeat (destruct H as [H|H]; [discriminate|]). destruct H.
        -- destruct (Hget _ _ H) as [-> Hq]. split; [reflexivity|lia].
      * intros q Hq. apply in_or_app. destruct (Z.eq_dec q page) as [->|Hne].
        -- left. subst mine. apply in_or_app. left. exact Ireq.
        -- right. apply Hall. lia.
      * intros cid' Hne. rewrite (Hoth cid' Hne). subst w2.
        cbn [progress add_log advance category_pages].
        apply dict_get_set_other. intros E'. apply str_of_Z_inj in E'.
        congruence.
Qed.

Lemma counting_up_nth a k i c :
  nth_error (counting_up a k) i = Some (Some c) ->
  c = (a + Z.of_nat i + 1)%Z.
Proof.
  unfold counting_up. intros H.
  assert (Hi : (i < k)%nat).
  { assert (Hn : nth_error (map (fun i => Some (a + Z.of_nat i + 1)%Z)
                                  (seq 0 k)) i <> None)
      by (rewrite H; discriminate).
    apply nth_error_Some in Hn. now rewrite length_map, length_seq in Hn. }
  rewrite nth_error_map, nth_error_seq in H.
  apply Nat.ltb_lt in Hi. rewrite Hi in H. simpl in H. congruence.
Qed.

Lemma counting_up_never_regresses a k tail :
  (forall c, In (Some c) tail -> False) ->
  never_regresses (counting_up a k ++ tail).
Proof.
  intros Ht i j x y Hij Hx Hy.
  assert (Hlen : List.length (counting_up a k) = k).
  { unfold counting_up. now rewrite length_map, length_seq. }
  assert (inside : forall n c, nth_error (counting_up a k ++ tail) n = Some (Some c) ->
                               (n < k)%nat).
  { intros n c H. destruct (Nat.lt_ge_cases n k) as [|Hge]; [assumption|].
    rewrite nth_error_app2 in H by lia. apply nth_error_In in H.
    destruct (Ht _ H). }
  pose proof (inside _ _ Hx) as Hik. pose proof (inside _ _ Hy) as Hjk.
  rewrite nth_error_app1 in Hx, Hy by lia.
  apply counting_up_nth in Hx, Hy. lia.
Qed.

(** X16. A run of the sequential crawler over a category that is not yet
    completed reads the pages one after the other from its start page
    (the saved cursor, or 1): when the next [k] pages are read and
    written and the page after them stops the loop, it requests these
    [k + 1] pages and no other, never a page below the start page, and
    the cursors it saves count up by one from the start page plus one;
    the saved cursor never gets smaller. *)
Theorem sequential_crawl_counts_pages_up L s cid slug completed w k e fuel :
  existsb (Z.eqb cid) completed = false ->
  (forall i, (i < k)%nat ->
     stops_at L s slug (first_page cid w + Z.of_nat i) = None) ->
  stops_at L s slug (first_page cid w + Z.of_nat k) = Some e ->
  (k < fuel)%nat ->
  exists completed' w' added,
    parse_category L fuel s cid slug completed w = Some (completed', w')
    /\ log w' = log w ++ added
    /\ (forall s' q, In (Get s' q) added ->
          s' = slug
          /\ (first_page cid w <= q <= first_page cid w + Z.of_nat k)%Z)
    /\ (forall q, (first_page cid w <= q <= first_page cid w + Z.of_nat k)%Z ->
          In (Get slug q) added)
    /\ saved_cursors cid added
       = counting_up (first_page cid w) k
         ++ match e with Drained => [None] | Aborted => [] end
    /\ never_regresses (saved_cursors cid added).
Proof.
  intros Hnc Hgood Hstop Hfuel.
  destruct (@crawl_pages_run L s cid slug k (first_page cid w) w fuel e
              Hgood Hstop Hfuel)
    as (w1 & added & E & El & Hc & _ & Hcur & Hget & Hall & _).
  unfold parse_category. rewrite Hnc. cbv zeta.
  change (Z.max 1 (start_page_of cid (progress w))) with (first_page cid w).
  rewrite E.
  assert (Hsleep : forall x, Forall is_request [Sleep x]) by (repeat constructor).
  destruct e.
  - set (pr := {| completed_categories := sorted_set (cid :: completed);
                  category_pages :=
                    dict_del (str_of_Z cid) (category_pages (progress w1)) |}).
    eexists; eexists; exists (added ++ [Save pr; Sleep 3]).
    split; [reflexivity|]. cbn [log].
    split; [rewrite El; now rewrite app_assoc|].
    split; [|split].
    + intros s' q H. apply in_app_or in H. destruct H as [H|H]; [auto|].
      simpl in H. destruct H as [H|[H|[]]]; discriminate.
    + intros q Hq. apply in_or_app. left. auto.
    + assert (Ec : saved_cursors cid (added ++ [Save pr; Sleep 3])
                   = counting_up (first_page cid w) k ++ [None]).
      { rewrite saved_cursors_app, Hc. unfold saved_cursors at 1.
        subst pr. cbn [saves map category_pages]. now rewrite dict_get_del. }
      split; [exact Ec|]. rewrite Ec. apply counting_up_never_regresses.
      intros c [H|[]]. discriminate.
  - eexists; eexists; exists (added ++ [Sleep 5]).
    split; [reflexivity|].
    split; [rewrite add_log_log, El; now rewrite app_assoc|].
    split; [|split].
    + intros s' q H. apply in_app_or in H. destruct H as [H|H]; [auto|].
      simpl in H. destruct H as [H|[]]; discriminate.
    + intros q Hq. apply in_or_app. left. auto.
    + assert (Ec : saved_cursors cid (added ++ [Sleep 5])
                   = counting_up (first_page cid w) k ++ []).
      { rewrite saved_cursors_app, Hc. reflexivity. }
      split; [exact Ec|]. rewrite Ec. apply counting_up_never_regresses.
      intros c [].
Qed.

(** X17. When the loop over the pages of a category ends at a page that
    cannot be read or has no product, the sequential crawler adds the
    category to [completed_categories] (kept sorted), removes its
    cursor, leaves the cursors of the other categories as they were,
    saves this as the last state of the checkpoint, and skips the
    category from then on. *)
Theorem sequential_drained_category_is_completed
    L s cid slug completed w k fuel :
  existsb (Z.eqb cid) completed = false ->
  (forall i, (i < k)%nat ->
     stops_at L s slug (first_page cid w + Z.of_nat i) = None) ->
  stops_at L s slug (first_page cid w + Z.of_nat k) = Some Drained ->
  (k < fuel)%nat ->
  exists w',
    parse_category L fuel s cid slug completed w
    = Some (cid :: completed, w')
    /\ completed_categories (progress w') = sorted_set (cid :: completed)
    /\ In cid (completed_categories (progress w'))
    /\ dict_get (str_of_Z cid) (category_pages (progress w')) = None
    /\ (forall cid', cid' <> cid ->
          dict_get (str_of_Z cid') (category_pages (progress w'))
          = dict_get (str_of_Z cid') (category_pages (progress w)))
    /\ nth_error (rev (saves (log w'))) 0 = Some (progress w')
    /\ parse_category L fuel s cid slug (cid :: completed) w'
       = Some (cid :: completed, w').
Proof.
  intros Hnc Hgood Hstop Hfuel.
  destruct (@crawl_pages_run L s cid slug k (first_page cid w) w fuel Drained
              Hgood Hstop Hfuel)
    as (w1 & added & E & El & _ & _ & _ & _ & _ & Hoth).
  unfold parse_category at 1. rewrite Hnc. cbv zeta.
  change (Z.max 1 (start_page_of cid (progress w))) with (first_page cid w).
  rewrite E. eexists. split; [reflexivity|]. cbn [progress log].
  split; [reflexivity|]. split; [|split; [|split; [|split]]].
  - cbn [completed_categories]. apply sorted_set_In. left. reflexivity.
  - cbn [category_pages]. apply dict_get_del.
  - intros cid' Hne. cbn [category_pages]. rewrite <- (Hoth cid' Hne).
    apply dict_get_del_other. intros E'. apply str_of_Z_inj in E'. congruence.
  - rewrite saves_app, rev_app_distr. reflexivity.
  - unfold parse_category. cbn [existsb]. now rewrite Z.eqb_refl.
Qed.

(** X18. When [upsert_products] raises on a page, the sequential crawler
    does not mark the category completed, and the next run of the
    category starts at the page whose write failed: the pages written
    before are not read again, and other categories are not touched. *)
Theorem sequential_database_failure_resumes_at_failed_page
    L s cid slug completed w k fuel :
  existsb (Z.eqb cid) completed = false ->
  (forall i, (i < k)%nat ->
     stops_at L s slug (first_page cid w + Z.of_nat i) = None) ->
  stops_at L s slug (first_page cid w + Z.of_nat k) = Some Aborted ->
  (k < fuel)%nat ->
  exists w',
    parse_category L fuel s cid slug completed w = Some (completed, w')
    /\ completed_categories (progress w') = completed_categories (progress w)
    /\ first_page cid w' = (first_page cid w + Z.of_nat k)%Z
    /\ (forall cid', cid' <> cid ->
          dict_get (str_of_Z cid') (category_pages (progress w'))
          = dict_get (str_of_Z cid') (category_pages (progress w)))
    /\ (k = 0%nat -> progress w' = progress w /\ products w' = products w
                     /\ checkpoint w' = checkpoint w).
Proof.
  intros Hnc Hgood Hstop Hfuel.
  destruct (@crawl_pages_run L s cid slug k (first_page cid w) w fuel Aborted
              Hgood Hstop Hfuel)
    as (w1 & added & E & El & _ & Hcomp & Hcur & _ & _ & Hoth).
  unfold parse_category. rewrite Hnc. cbv zeta.
  change (Z.max 1 (start_page_of cid (progress w))) with (first_page cid w).
  rewrite E. eexists. split; [reflexivity|]. cbn [progress add_log].
  split; [exact Hcomp|]. split; [|split; [exact Hoth|]].
  - unfold first_page, start_page_of, add_log. cbn [progress].
    rewrite Hcur. unfold first_page, start_page_of.
    destruct k as [|k]; cbn [Nat.eqb];
      destruct (dict_get (str_of_Z cid) (category_pages (progress w))); lia.
  - intros ->. destruct fuel as [|fuel]; [lia|].
    rewrite crawl_pages_unfold in E. cbv zeta in E.
    rewrite Z.add_0_r in Hstop. unfold stops_at in Hstop.
    destruct (page_content L s slug (first_page cid w)); [|discriminate].
    destruct (database_up s (first_page cid w)); [discriminate|].
    injection E as <-. repeat split.
Qed.

Lemma sequential_crawl_counts_pages_up_witness :
  exists completed' w' added,
    parse_category sample_library 3 two_page_site 42 (lit "pipes") [] new_world
    = Some (completed', w')
    /\ log w' = log new_world ++ added
    /\ (forall s' q, In (Get s' q) added ->
          s' = lit "pipes"
          /\ (first_page 42 new_world <= q
              <= first_page 42 new_world + Z.of_nat 2)%Z)
    /\ (forall q, (first_page 42 new_world <= q
                   <= first_page 42 new_world + Z.of_nat 2)%Z ->
          In (Get (lit "pipes") q) added)
    /\ saved_cursors 42 added
       = counting_up (first_page 42 new_world) 2 ++ [None]
    /\ never_regresses (saved_cursors 42 added).
Proof.
  apply (@sequential_crawl_counts_pages_up sample_library two_page_site 42
           (lit "pipes") [] new_world 2 Drained 3).
  - reflexivity.
  - intros i Hi. destruct i as [|[|i]]; [vm_compute; reflexivity ..|lia].
  - vm_compute. reflexivity.
  - lia.
Defined.

Lemma sequential_drained_category_is_completed_witness :
  exists w',
    parse_category sample_library 3 two_page_site 42 (lit "pipes") [] new_world
    = Some ([42%Z], w')
    /\ completed_categories (progress w') = sorted_set [42%Z]
    /\ In 42%Z (completed_categories (progress w'))
    /\ dict_get (str_of_Z 42) (category_pages (progress w')) = None
    /\ (forall cid', cid' <> 42%Z ->
          dict_get (str_of_Z cid') (category_pages (progress w'))
          = dict_get (str_of_Z cid') (category_pages (progress new_world)))
    /\ nth_error (rev (saves (log w'))) 0 = Some (progress w')
    /\ parse_category sample_library 3 two_page_site 42 (lit "pipes") [42%Z] w'
       = Some ([42%Z], w').
Proof.
  apply (@sequential_drained_category_is_completed sample_library
           two_page_site 42 (lit "pipes") [] new_world 2 3).
  - reflexivity.
  - intros i Hi. destruct i as [|[|i]]; [vm_compute; reflexivity ..|lia].
  - vm_compute. reflexivity.
  - lia.
Defined.

Lemma sequential_database_failure_resumes_at_failed_page_witness :
  exists w',
    parse_category sample_library 2 database_down_site 42 (lit "pipes") []
                   new_world
    = Some ([], w')
    /\ completed_categories (progress w')
       = completed_categories (progress new_world)
    /\ first_page 42 w' = (first_page 42 new_world + Z.of_nat 1)%Z
    /\ (forall cid', cid' <> 42%Z ->
          dict_get (str_of_Z cid') (category_pages (progress w'))
          = dict_get (str_of_Z cid') (category_pages (progress new_world)))
    /\ (1%nat = 0%nat -> progress w' = progress new_world
                         /\ products w' = products new_world
                         /\ checkpoint w' = checkpoint new_world).
Proof.
  apply (@sequential_database_failure_resumes_at_failed_page sample_library
           database_down_site 42 (lit "pipes") [] new_world 1 2).
  - reflexivity.
  - intros i Hi. destruct i as [|i]; [vm_compute; reflexivity|lia].
  - vm_compute. reflexivity.
  - lia.
Defined.

(** ** Properties of the run over selected categories *)

Lemma process_category_async_completed L env cid slug w :
  completed_categories (progress (process_category_async L env cid slug w))
  = if (fst (async_get_total_pages (size_resp env) slug) <=? 0)%Z
    then completed_categories (progress w)
    else sorted_set (cid :: completed_categories (progress w)).
Proof.
  rewrite process_category_async_unfold. cbv zeta.
  destruct (fst (async_get_total_pages (size_resp env) slug) <=? 0)%Z;
    [reflexivity|].
  unfold complete. cbn [progress completed_categories].
  match goal with
  | |- context [run_pages L env cid slug ?o ?w1] =>
      destruct (run_pages_other L env cid slug o w1) as (-> & _)
  end.
  reflexivity.
Qed.

Lemma process_category_async_keeps L env cid slug w x :
  In x (completed_categories (progress w)) ->
  In x (completed_categories
          (progress (process_category_async L env cid slug w))).
Proof.
  intros H. rewrite process_category_async_completed.
  destruct (_ <=? 0)%Z; [assumption|].
  apply sorted_set_In. right. assumption.
Qed.

Lemma run_categories_keeps L site cs w x :
  In x (completed_categories (progress w)) ->
  In x (completed_categories
          (progress
             (fold_left
                (fun w c =>
                   process_category_async L (site (fst c)) (fst c) (snd c) w)
                cs w))).
Proof.
  revert w. induction cs as [|c cs IH]; intros w H; simpl; [assumption|].
  apply IH, process_category_async_keeps, H.
Qed.

Lemma run_categories_completes L site cs w c :
  In c cs -> sized site c ->
  In (fst c)
     (completed_categories
        (progress
           (fold_left
              (fun w c =>
                 process_category_async L (site (fst c)) (fst c) (snd c) w)
              cs w))).
Proof.
  revert w. induction cs as [|c' cs IH]; intros w Hin Hs; [destruct Hin|].
  simpl. destruct Hin as [->|Hin]; [|now apply IH].
  apply run_categories_keeps. rewrite process_category_async_completed.
  apply Z.leb_gt in Hs. rewrite Hs. apply sorted_set_In. left. reflexivity.
Qed.

Lemma not_completed_none completed categories :
  (forall c, In c categories -> In (fst c) completed) ->
  not_completed completed categories = [].
Proof.
  intros H. unfold not_completed. induction categories as [|c cs IH]; [reflexivity|].
  simpl. assert (E : existsb (Z.eqb (fst c)) completed = true).
  { apply existsb_exists. exists (fst c). split; [apply H; now left|].
    apply Z.eqb_refl. }
  rewrite E. simpl. apply IH. intros c' Hc'. apply H. now right.
Qed.

Lemma not_completed_In completed categories c :
  In c categories ->
  In (fst c) completed \/ In c (not_completed completed categories).
Proof.
  intros H. unfold not_completed.
  destruct (existsb (Z.eqb (fst c)) completed) eqn:E.
  - left. apply existsb_exists in E. destruct E as (x & Hx & Ex).
    apply Z.eqb_eq in Ex. now subst x.
  - right. apply filter_In. split; [assumption|]. now rewrite E.
Qed.

(** X19. After [parse_selected_categories_async] over a selection whose
    categories all have at least one page when they are sized, every
    category of the selection is in [completed_categories], every
    category completed before still is, and a second run over the same
    selection does nothing: no request, no write, whatever the site
    answers then. *)
Theorem selected_categories_end_completed L site category_ids categories w :
  category_ids <> [] ->
  (forall c, In c categories -> sized site c) ->
  let w' := parse_selected_categories_async L site category_ids categories w in
  (forall c, In c categories ->
     In (fst c) (completed_categories (progress w')))
  /\ (forall x, In x (completed_categories (progress w)) ->
        In x (completed_categories (progress w')))
  /\ (forall site',
        parse_selected_categories_async L site' category_ids categories w'
        = w').
Proof.
  intros Hids Hs. cbv zeta.
  assert (A : forall x, In x (completed_categories (progress w)) ->
     In x (completed_categories (progress
       (parse_selected_categories_async L site category_ids categories w)))).
  { intros x Hx. unfold parse_selected_categories_async.
    destruct category_ids; [assumption|].
    destruct categories; [assumption|]. cbv zeta.
    now apply run_categories_keeps. }
  assert (B : forall c, In c categories ->
     In (fst c) (completed_categories (progress
       (parse_selected_categories_async L site category_ids categories w)))).
  { intros c Hc.
    destruct (not_completed_In (completed_categories (progress w)) categories c Hc)
      as [H|H]; [now apply A|].
    unfold parse_selected_categories_async.
    destruct category_ids as [|i ids]; [contradiction|].
    destruct categories as [|c0 cs]; [destruct Hc|]. cbv zeta.
    apply run_categories_completes; [exact H|]. apply Hs, Hc. }
  split; [exact B|]. split; [exact A|].
  intros site'. unfold parse_selected_categories_async at 1.
  destruct category_ids as [|i ids]; [reflexivity|].
  destruct categories as [|c0 cs]; [reflexivity|]. cbv zeta.
  rewrite not_completed_none; [reflexivity|]. exact B.
Qed.

Lemma selected_categories_end_completed_witness :
  let site := fun _ : Z => three_pages [1; 2; 3]%Z in
  let w' := parse_selected_categories_async sample_library site [42%Z]
              [(42%Z, lit "pipes")] new_world in
  (forall c, In c [(42%Z, lit "pipes")] ->
     In (fst c) (completed_categories (progress w')))
  /\ (forall x, In x (completed_categories (progress new_world)) ->
        In x (completed_categories (progress w')))
  /\ (forall site',
        parse_selected_categories_async sample_library site' [42%Z]
          [(42%Z, lit "pipes")] w'
        = w').
Proof.
  apply (@selected_categories_end_completed sample_library
           (fun _ : Z => three_pages [1; 2; 3]%Z) [42%Z]
           [(42%Z, lit "pipes")] new_world).
  - discriminate.
  - intros c [<-|[]]. vm_compute. reflexivity.
Defined.

(** ** Properties of the pagination statistics *)



